(** * awa5js: the AWA5.0 interpreter of [awa5.js], embedded in Rocq

    The development follows the source file top to bottom: the opcode
    table, the tokenizer ([parser]), the value cell ([Bubble]), the I/O
    adapter ([InOut]), the stack helpers ([Abysser]), arithmetic ([Arith]),
    comparisons ([Comparator]), the dispatch loop ([interpreter]) and the
    entry point ([AWA5.run]).  Theorems about the embedding come last.

    Conventions of the embedding.

    - A JavaScript number is an IEEE double.  The embedding represents the
      numbers that are integers of magnitude at most 2^53 as [Z]; on those
      [+], [-], [*], [<] and [===] are exact.  An operation whose result
      leaves that range, or which would have JavaScript coerce a string or
      an array to a number, yields [OutOfModel]: the embedding then says
      nothing about the run.  Negative zero is identified with zero, which
      no operation of the interpreter can tell apart.
    - Texts are ASCII strings.
    - A thrown exception is [Throw e].  The mutable objects (the abyss, the
      reader and the writer) keep the contents they have when the exception
      is raised, as they do in JavaScript.
    - The [trace] argument that every function of the source threads
      through records frame names for diagnostics only.  It is dropped
      here, and with it the [#i frame] lines that [run] writes after an
      error.  The one place where the argument matters, the calls of
      [Arith.bubblediv], is modelled explicitly.
    - Only the array-backed reader and writer are modelled; the DOM-backed
      ones need a browser. *)

From stdpp Require Import gmap list strings.
From Stdlib Require Import ZArith String Ascii DecimalString Lia.

#[local] Open Scope Z_scope.

(** ** Exceptions and outcomes *)

(** The exceptions the interpreter can raise.  [OpcodeError] keeps the
    constructor's [opcode] argument; the messages of the errors raised by
    the JavaScript engine itself are indicative. *)
Inductive error :=
| SyntaxError (message : string)
| OpcodeError (opcode : Z) (message : string)
| LimitError (message : string)
| RangeError (message : string)
| TypeError (message : string)
| ReferenceError (message : string).

Inductive outcome (A : Type) :=
| Ok (a : A)
| Throw (e : error)
| OutOfModel.
Arguments Ok {A} a.
Arguments Throw {A} e.
Arguments OutOfModel {A}.

#[global] Instance outcome_ret : MRet outcome := fun A a => Ok a.
#[global] Instance outcome_bind : MBind outcome := fun A B f m =>
  match m with
  | Ok a => f a
  | Throw e => Throw e
  | OutOfModel => OutOfModel
  end.

(** ** JavaScript values and primitive operators *)

#[local] Set Warnings "-register-all".

Inductive val :=
| VNum (z : Z)
| VStr (s : string)
| VArr (l : list val).

(** [2^53], the largest magnitude up to which every integer is a double. *)
Definition max_safe : Z := 9007199254740992.

Definition js_number (z : Z) : outcome val :=
  if Z.abs z <=? max_safe then Ok (VNum z) else OutOfModel.

(** [String(v)], also what a template literal produces.  An array is joined
    with commas. *)
Fixpoint js_to_string (v : val) : string :=
  match v with
  | VNum z => NilZero.string_of_int (Z.to_int z)
  | VStr s => s
  | VArr l => String.concat "," (List.map js_to_string l)
  end.

(** [a + b]: numeric on two numbers, string concatenation as soon as one
    operand is a string or an array (an array is first turned into its
    string). *)
Definition js_add (a b : val) : outcome val :=
  match a, b with
  | VNum x, VNum y => js_number (x + y)
  | _, _ => Ok (VStr (js_to_string a ++ js_to_string b))
  end.

(** [a - b] and [a * b] turn both operands into numbers. *)
Definition js_sub (a b : val) : outcome val :=
  match a, b with
  | VNum x, VNum y => js_number (x - y)
  | _, _ => OutOfModel
  end.

Definition js_mul (a b : val) : outcome val :=
  match a, b with
  | VNum x, VNum y => js_number (x * y)
  | _, _ => OutOfModel
  end.

(** [a < b]: numeric on two numbers, by code units on two strings (arrays
    count as their strings); a string against a number is turned into a
    number. *)
Definition js_lt (a b : val) : outcome bool :=
  match a, b with
  | VNum x, VNum y => Ok (x <? y)
  | VNum _, _ | _, VNum _ => OutOfModel
  | _, _ => Ok (String.ltb (js_to_string a) (js_to_string b))
  end.

(** [a === b].  Two arrays are equal when they are the same object, which
    a value does not record. *)
Definition js_strict_eq (a b : val) : outcome bool :=
  match a, b with
  | VNum x, VNum y => Ok (x =? y)
  | VStr s, VStr t => Ok (String.eqb s t)
  | VArr _, VArr _ => OutOfModel
  | _, _ => Ok false
  end.

(** The values [...v] spreads into an argument list, and what the
    [try { f(...v) } catch { f(v) }] idiom of the source passes: a number is
    not iterable, so the fallback passes the number itself; a string
    spreads into its characters; an array into its elements. *)
Definition js_spread_or_self (v : val) : list val :=
  match v with
  | VNum _ => [v]
  | VStr s => List.map (fun c => VStr (String c EmptyString)) (list_ascii_of_string s)
  | VArr l => l
  end.

(** [v.map(f)] *)
Definition js_map (f : val -> outcome val) (v : val) : outcome (list val) :=
  match v with
  | VArr l => mapM f l
  | _ => Throw (TypeError "map is not a function")
  end.

(** ** The opcode table *)

Module OPCODES.
Definition NOP : Z := 0.
Definition PRN : Z := 1.
Definition PR1 : Z := 2.
Definition RED : Z := 3.
Definition R3D : Z := 4.
Definition BLO : Z := 5.
Definition SBM : Z := 6.
Definition POP : Z := 7.
Definition DPL : Z := 8.
Definition SRN : Z := 9.
Definition MRG : Z := 10.
Definition DD4 : Z := 11.
Definition SUB : Z := 12.
Definition MUL : Z := 13.
Definition DIV : Z := 14.
Definition CNT : Z := 15.
Definition LBL : Z := 16.
Definition JMP : Z := 17.
Definition EQL : Z := 18.
Definition LSS : Z := 19.
Definition GR8 : Z := 20.
Definition EQZ : Z := 21.
Definition TRM : Z := 31.

(** [(token >>> 0) % 32]: the token as an unsigned 32-bit integer, then
    its remainder by 32. *)
Definition get (token : Z) : Z := (token mod 2 ^ 32) mod 32.

(** The [switch] compares its argument with [===], so only the nine
    listed numbers answer [true]. *)
Definition parameterized (opcode : Z) : bool :=
  bool_decide (opcode ∈ [BLO; SBM; SRN; LBL; JMP; EQL; LSS; GR8; EQZ]).

Definition name (opcode : Z) : string :=
  if opcode =? NOP then "NOP" else if opcode =? PRN then "PRN"
  else if opcode =? PR1 then "PR1" else if opcode =? RED then "RED"
  else if opcode =? R3D then "R3D" else if opcode =? BLO then "BLO"
  else if opcode =? SBM then "SBM" else if opcode =? POP then "POP"
  else if opcode =? DPL then "DPL" else if opcode =? SRN then "SRN"
  else if opcode =? MRG then "MRG" else if opcode =? DD4 then "4DD"
  else if opcode =? SUB then "SUB" else if opcode =? MUL then "MUL"
  else if opcode =? DIV then "DIV" else if opcode =? CNT then "CNT"
  else if opcode =? LBL then "LBL" else if opcode =? JMP then "JMP"
  else if opcode =? EQL then "EQL" else if opcode =? LSS then "LSS"
  else if opcode =? GR8 then "GR8" else if opcode =? EQZ then "EQZ"
  else if opcode =? TRM then "TRM"
  else NilZero.string_of_int (Z.to_int opcode).
End OPCODES.

(** The message of an error: [OpcodeError] puts the name of its opcode in
    front. *)
Definition error_message (e : error) : string :=
  match e with
  | OpcodeError opcode message => "(" ++ OPCODES.name opcode ++ ") " ++ message
  | SyntaxError message | LimitError message | RangeError message
  | TypeError message | ReferenceError message => message
  end.

(** ** The tokenizer *)

(** [v << 1] works on 32-bit signed integers. *)
Definition to_int32 (z : Z) : Z := (z + 2 ^ 31) mod 2 ^ 32 - 2 ^ 31.
Definition js_shl1 (v : Z) : Z := to_int32 (Z.shiftl v 1).

(** The ASCII characters matched by [\s]: tab, line feed, vertical tab,
    form feed, carriage return and space. *)
Definition is_space (c : ascii) : bool :=
  bool_decide (nat_of_ascii c ∈ [9; 10; 11; 12; 13; 32]%nat).

(** [/[^aw~\s]+/gi]: with the [i] flag both cases of [a] and [w] stay. *)
Definition is_kept (c : ascii) : bool :=
  is_space c || bool_decide (c ∈ ["a"; "w"; "A"; "W"; "~"]%char).

(** [.replace(/[\n\s]+/g, ' ')]: every maximal run of white space becomes
    one space.  [in_run] tells that the previous character was white
    space. *)
Fixpoint collapse_spaces (in_run : bool) (l : list ascii) : list ascii :=
  match l with
  | [] => []
  | c :: l' =>
      if is_space c
      then (if in_run then collapse_spaces true l'
            else " "%char :: collapse_spaces true l')
      else c :: collapse_spaces false l'
  end.

Definition to_lower (c : ascii) : ascii :=
  let n := nat_of_ascii c in
  if (65 <=? n)%nat && (n <=? 90)%nat then ascii_of_nat (n + 32) else c.

Definition sanitize (input : string) : string :=
  string_of_list_ascii
    (List.map to_lower
       (collapse_spaces false
          (List.filter is_kept (list_ascii_of_string input)))).

(** [s.substring(a, b)] for [a <= b]; both ends are clamped to the length. *)
Definition js_substring (s : string) (a b : nat) : string :=
  String.substring a (b - a) s.

(** The variables of the decoding loop. *)
Record parser_state := {
  p_cursor : nat;
  p_bits : Z;
  p_target : Z;
  p_value : Z;
  p_parameter : bool;
  p_tokens : list Z
}.

(** [cursor < cleaned.length - 1] *)
Definition parser_guard (cleaned : string) (st : parser_state) : bool :=
  Z.of_nat (p_cursor st) <? Z.of_nat (String.length cleaned) - 1.

(** The bit unit found at the cursor: the new [value] and [cursor]. *)
Definition parser_unit (cleaned : string) (st : parser_state) : outcome (Z * nat) :=
  let cursor := p_cursor st in
  if String.eqb "wa" (js_substring cleaned cursor (cursor + 2)) then
    Ok (js_shl1 (p_value st) + 1, (cursor + 2)%nat)
  else if String.eqb " awa" (js_substring cleaned cursor (cursor + 4)) then
    Ok (js_shl1 (p_value st), (cursor + 4)%nat)
  else if String.eqb " ~wa" (js_substring cleaned cursor (cursor + 4))
          && (p_bits st =? 0) then
    Ok (-1, (cursor + 4)%nat)
  else
    Throw (SyntaxError ("malformed input ("
                          ++ NilZero.string_of_uint (Nat.to_uint cursor) ++ ")")).

(** One turn of the [while] loop.  The [switch] on [OPCODES.get(value)]
    lists the same nine opcodes as [OPCODES.parameterized]. *)
Definition parser_step (cleaned : string) (st : parser_state) : outcome parser_state :=
  '(value, cursor) ← parser_unit cleaned st;
  let bits := p_bits st + 1 in
  if p_target st <=? bits then
    let tokens := p_tokens st ++ [value] in
    if p_parameter st then
      Ok {| p_cursor := cursor; p_bits := 0; p_target := 5; p_value := 0;
            p_parameter := false; p_tokens := tokens |}
    else if OPCODES.parameterized (OPCODES.get value) then
      Ok {| p_cursor := cursor; p_bits := 0; p_target := 8; p_value := 0;
            p_parameter := true; p_tokens := tokens |}
    else
      Ok {| p_cursor := cursor; p_bits := 0; p_target := p_target st; p_value := 0;
            p_parameter := p_parameter st; p_tokens := tokens |}
  else
    Ok {| p_cursor := cursor; p_bits := bits; p_target := p_target st;
          p_value := value; p_parameter := p_parameter st; p_tokens := p_tokens st |}.

(** The [while] loop.  Every turn moves the cursor forward, so the length
    of the text is fuel enough ([parser_loop_fuel] below); [None] tells
    that the fuel ran out. *)
Fixpoint parser_loop (fuel : nat) (cleaned : string) (st : parser_state)
  : option (outcome (list Z)) :=
  if parser_guard cleaned st then
    match fuel with
    | O => None
    | S fuel' =>
        match parser_step cleaned st with
        | Ok st' => parser_loop fuel' cleaned st'
        | Throw e => Some (Throw e)
        | OutOfModel => Some OutOfModel
        end
    end
  else Some (Ok (p_tokens st)).

Definition parser_init (start : nat) : parser_state :=
  {| p_cursor := (start + 3)%nat; p_bits := 0; p_target := 5; p_value := 0;
     p_parameter := false; p_tokens := [] |}.

(** [cleaned.search(/awa\s*/)] is the position of the first [awa]. *)
Definition parser (input : string) : outcome (list Z) :=
  let cleaned := sanitize input in
  match String.index 0 "awa" cleaned with
  | None => Throw (SyntaxError "missing start of block")
  | Some start =>
      match parser_loop (String.length cleaned) cleaned (parser_init start) with
      | Some r => r
      | None => OutOfModel
      end
  end.

(** ** Bubbles *)

Module Bubble.
Record t := mk { backing : list val }.

(** An array of two or more values is returned as a copy, an empty
    backing stands for [0], a single value is returned as it is. *)
Definition value (this : t) : val :=
  match backing this with
  | _ :: _ :: _ => VArr (backing this)
  | [] => VNum 0
  | [v] => v
  end.

(** [this.backing.unshift(...v)], falling back on [unshift(v)]. *)
Definition merge (this bubble : t) : t :=
  mk (js_spread_or_self (value bubble) ++ backing this).

Definition clone (this : t) : t := mk (backing this).

Definition isDouble (this : t) : bool := (1 <? List.length (backing this))%nat.

Definition size (this : t) : nat :=
  if (List.length (backing this) =? 1)%nat then 0%nat
  else List.length (backing this).
End Bubble.

#[global] Arguments Bubble.isDouble : simpl never.
#[global] Arguments Bubble.value : simpl never.
#[global] Arguments Bubble.size : simpl never.

(** What an array of bubbles can hold: [abyss.pop()] on an empty abyss is
    [undefined], and [Abysser.submerge] stores whatever it popped. *)
Inductive slot :=
| Undefined
| Bub (b : Bubble.t).

(** A method call [s.m()] first needs [s] to be an object. *)
Definition deref (s : slot) : outcome Bubble.t :=
  match s with
  | Bub b => Ok b
  | Undefined => Throw (TypeError "Cannot read properties of undefined")
  end.

(** ** Readers, writers and the mutable state of a run *)

Module ArrayReader.
Record t := mk { backing : list val; line : Z }.

(** [new ArrayReader(backing)] *)
Definition new (backing : list val) : t := mk backing (-1).

(** The next entry of the backing array, [''] where there is none. *)
Definition read (this : t) : val * t :=
  let line := line this + 1 in
  (if line <? 0 then VStr ""
   else default (VStr "") (backing this !! Z.to_nat line),
   mk (backing this) line).

Definition reset (this : t) : t := mk (backing this) (-1).
End ArrayReader.

(** What [ArrayWriter.write] is given to push: a text, [undefined], or the
    exception that [run] caught. *)
Inductive written :=
| WStr (s : string)
| WUndefined
| WError (e : error).

(** The objects a run mutates: the abyss (index 0 is the bottom, the last
    element the top), the input reader and the array behind the output
    writer. *)
Record machine := {
  abyss : list slot;
  stdin : ArrayReader.t;
  stdout : list written
}.

(** Computations over the machine.  The machine is returned in every case:
    an exception does not undo what was done before it. *)
Definition M (A : Type) : Type := machine -> outcome A * machine.

Definition m_ret {A} (a : A) : M A := fun m => (Ok a, m).
Definition m_bind {A B} (c : M A) (k : A -> M B) : M B := fun m =>
  match c m with
  | (Ok a, m') => k a m'
  | (Throw e, m') => (Throw e, m')
  | (OutOfModel, m') => (OutOfModel, m')
  end.
Definition m_throw {A} (e : error) : M A := fun m => (Throw e, m).
Definition m_lift {A} (o : outcome A) : M A := fun m => (o, m).

Declare Scope m_scope.
Delimit Scope m_scope with M.
Bind Scope m_scope with M.
Notation "'let*' x ':=' c 'in' k" := (m_bind c (fun x => k))
  (at level 10, x pattern, c at level 100, k at level 200) : m_scope.
Notation "c ';;' k" := (m_bind c (fun _ => k))
  (at level 100, k at level 200, right associativity) : m_scope.
#[local] Open Scope m_scope.

(** [abyss.length] *)
Definition abyss_length : M nat := fun m => (Ok (List.length (abyss m)), m).

(** [abyss.pop()]: the last element, [undefined] when there is none. *)
Definition abyss_pop : M slot := fun m =>
  (Ok (default Undefined (last (abyss m))),
   {| abyss := removelast (abyss m); stdin := stdin m; stdout := stdout m |}).

(** [abyss[abyss.length - k]] *)
Definition abyss_peek (k : nat) : M slot := fun m =>
  (Ok (default Undefined (abyss m !! (List.length (abyss m) - k)%nat)), m).

(** [abyss.push(...l)] *)
Definition abyss_push (l : list slot) : M unit := fun m =>
  (Ok tt, {| abyss := abyss m ++ l; stdin := stdin m; stdout := stdout m |}).

(** [abyss.unshift(s)] *)
Definition abyss_unshift (s : slot) : M unit := fun m =>
  (Ok tt, {| abyss := s :: abyss m; stdin := stdin m; stdout := stdout m |}).

(** [abyss.splice(start, 0, s)]: a negative [start] counts from the end
    and stops at 0, a [start] past the end is the end. *)
Definition abyss_splice_insert (start : Z) (s : slot) : M unit := fun m =>
  let len := Z.of_nat (List.length (abyss m)) in
  let actual := Z.to_nat (if start <? 0 then Z.max (len + start) 0 else Z.min start len) in
  (Ok tt, {| abyss := take actual (abyss m) ++ s :: drop actual (abyss m);
             stdin := stdin m; stdout := stdout m |}).

(** [abyss.splice(0, abyss.length)] *)
Definition abyss_clear : M unit := fun m =>
  (Ok tt, {| abyss := []; stdin := stdin m; stdout := stdout m |}).

(** [stdin.read()] *)
Definition stdin_read : M val := fun m =>
  let '(v, r) := ArrayReader.read (stdin m) in
  (Ok v, {| abyss := abyss m; stdin := r; stdout := stdout m |}).

(** [stdout.write(w)] *)
Definition stdout_write (w : written) : M unit := fun m =>
  (Ok tt, {| abyss := abyss m; stdin := stdin m; stdout := stdout m ++ [w] |}).

(** ** The I/O adapter *)

(** [parseInt(s)] without a radix: leading white space and a sign are
    skipped, [0x] selects base 16, and the longest run of digits is read.
    [None] is [NaN]. *)
Fixpoint skip_spaces (l : list ascii) : list ascii :=
  match l with
  | c :: l' => if is_space c then skip_spaces l' else l
  | [] => []
  end.

Definition digit_value (radix : Z) (c : ascii) : option Z :=
  let n := Z.of_nat (nat_of_ascii c) in
  let d := if (48 <=? n) && (n <=? 57) then n - 48
           else if (97 <=? n) && (n <=? 122) then n - 87
           else if (65 <=? n) && (n <=? 90) then n - 55
           else radix in
  if d <? radix then Some d else None.

Fixpoint read_digits (radix : Z) (acc : option Z) (l : list ascii) : option Z :=
  match l with
  | c :: l' =>
      match digit_value radix c with
      | Some d => read_digits radix (Some (default 0 acc * radix + d)) l'
      | None => acc
      end
  | [] => acc
  end.

Definition js_parseInt (s : string) : option Z :=
  let l := skip_spaces (list_ascii_of_string s) in
  let '(sign, l) := match l with
                    | "-"%char :: l' => (-1, l')
                    | "+"%char :: l' => (1, l')
                    | _ => (1, l)
                    end in
  let '(radix, l) := match l with
                     | "0"%char :: "x"%char :: l' => (16, l')
                     | "0"%char :: "X"%char :: l' => (16, l')
                     | _ => (10, l)
                     end in
  (fun z => sign * z) <$> read_digits radix None l.

Module InOut.
Definition ALPHABET : string :=
  "AWawJELYHOSIUMjelyhosiumPCNTpcntBDFGRbdfgr0123456789 .,!'()~_/;"
  ++ String (ascii_of_nat 10) EmptyString.

(** A string is its own letter.  A number is looked up in the alphabet;
    the range test lets [ALPHABET.length] through, for which the lookup
    is [undefined] ([None]).  An array would be compared as a number. *)
Definition letter (v : val) : outcome (option string) :=
  match v with
  | VStr s => Ok (Some s)
  | VNum z =>
      if (z <? 0) || (Z.of_nat (String.length ALPHABET) <? z) then
        Throw (RangeError ("index " ++ js_to_string v ++ " out of range"))
      else
        Ok ((fun c => String c EmptyString) <$> String.get (Z.to_nat z) ALPHABET)
  | VArr _ => OutOfModel
  end.

(** [join('')] renders [undefined] as the empty string. *)
Definition write (bubble : slot) : M unit :=
  let* b := m_lift (deref bubble) in
  if Bubble.isDouble b then
    let* letters := m_lift (mapM letter (Bubble.backing b)) in
    stdout_write (WStr (String.concat "" (List.map (default "") letters)))
  else
    let* out := m_lift (letter (Bubble.value b)) in
    stdout_write (match out with Some s => WStr s | None => WUndefined end).

(** [split.includes(c)] for every character of the line *)
Definition valid_line (s : string) : bool :=
  forallb (fun c => bool_decide (c ∈ list_ascii_of_string ALPHABET))
          (list_ascii_of_string s).

(** An empty line (or the number 0) reads as the text ['0'].  A non-zero
    number has no [length], so the validation loop collects nothing. *)
Definition read : M Bubble.t :=
  let* line := stdin_read in
  match line with
  | VStr s =>
      if String.eqb s "" then m_ret (Bubble.mk [VStr "0"])
      else if valid_line s then m_ret (Bubble.mk (js_spread_or_self (VStr s)))
      else m_throw (RangeError ("'" ++ s ++ "' contains invalid characters"))
  | VNum z => if z =? 0 then m_ret (Bubble.mk [VStr "0"]) else m_ret (Bubble.mk [])
  | VArr _ => m_lift OutOfModel
  end.

Definition writeRaw (bubble : slot) : M unit :=
  let* b := m_lift (deref bubble) in
  stdout_write (WStr (js_to_string (Bubble.value b))).

Definition readRaw : M Bubble.t :=
  let* line := stdin_read in
  match line with
  | VStr s =>
      if String.eqb s "" then m_ret (Bubble.mk [VNum 0])
      else match js_parseInt s with
           | None => m_throw (TypeError ("'" ++ s ++ "' is not a number"))
           | Some z => let* v := m_lift (js_number z) in m_ret (Bubble.mk [v])
           end
  | VNum z => let* v := m_lift (js_number z) in m_ret (Bubble.mk [v])
  | VArr _ => m_lift OutOfModel
  end.
End InOut.

(** ** Moving bubbles around *)

(** What an opcode hands back to the dispatch loop to be pushed: [null],
    one bubble, or an array of bubbles. *)
Inductive result :=
| Null
| Single (b : Bubble.t)
| Several (l : list Bubble.t).

Module Abysser.
(** The popped value goes to the bottom for [input = 0], otherwise
    [input] places below the top. *)
Definition submerge (input : Z) : M result :=
  let* value := abyss_pop in
  (if input =? 0 then abyss_unshift value
   else
     let* len := abyss_length in
     abyss_splice_insert (Z.of_nat len - input) value);;
  m_ret Null.

Definition pop (input : slot) : outcome result :=
  b ← deref input;
  if negb (Bubble.isDouble b) then Ok Null
  else Ok (Several (List.map (fun v => Bubble.mk [v]) (Bubble.backing b))).

Definition duplicate (input : slot) : outcome result :=
  b ← deref input;
  Ok (Several [b; Bubble.clone b]).

(** [for (let i=0; i<input; ++i) bubble.merge(this.abyss.pop())] *)
Fixpoint surround_loop (n : nat) (bubble : Bubble.t) : M Bubble.t :=
  match n with
  | O => m_ret bubble
  | S n' =>
      let* s := abyss_pop in
      let* b := m_lift (deref s) in
      surround_loop n' (Bubble.merge bubble b)
  end.

Definition surround (input : Z) : M result :=
  let* bubble := surround_loop (Z.to_nat input) (Bubble.mk []) in
  m_ret (Single bubble).

(** [bubble] is declared [const], so the assignment of the first branch
    raises a [TypeError] once its right-hand side is evaluated; the
    second branch reads [input], which is not declared anywhere. *)
Definition merge (b1 b2 : slot) : outcome result :=
  b1' ← deref b1;
  if negb (Bubble.isDouble b1') then
    b2' ← deref b2;
    if negb (Bubble.isDouble b2') then
      Throw (TypeError "Assignment to constant variable.")
    else Throw (ReferenceError "input is not defined")
  else Throw (ReferenceError "input is not defined").
End Abysser.

(** ** Arithmetic *)

Definition js_elements (v : val) : list val :=
  match v with
  | VArr l => l
  | _ => []
  end.

Module Arith.
(** [add], [sub] and [mul] are the same text up to the operator [op]. *)
Definition elementwise (op : val -> val -> outcome val) (b1 b2 : slot)
  : outcome result :=
  b1 ← deref b1;
  b2 ← deref b2;
  let b1double := Bubble.isDouble b1 in
  let b2double := Bubble.isDouble b2 in
  let b1v := Bubble.value b1 in
  let b2v := Bubble.value b2 in
  if negb b1double && negb b2double then
    (* new Bubble(b1v op b2v) *)
    r ← op b1v b2v;
    Ok (Single (Bubble.mk [r]))
  else if b1double && negb b2double then
    (* new Bubble(b1v.map((e) => (e op b2v))): the array is the one
       argument of the constructor *)
    r ← js_map (fun e => op e b2v) b1v;
    Ok (Single (Bubble.mk [VArr r]))
  else if negb b1double && b2double then
    (* new Bubble(b2v.map((e) => (e op b1v))) *)
    r ← js_map (fun e => op e b1v) b2v;
    Ok (Single (Bubble.mk [VArr r]))
  else
    (* values.push(b1v[i] op b2v[i]) for i < len; new Bubble(...values) *)
    let len := Nat.min (Bubble.size b1) (Bubble.size b2) in
    values ← mapM (fun '(x, y) => op x y)
                  (take len (zip (js_elements b1v) (js_elements b2v)));
    Ok (Single (Bubble.mk values)).

Definition add : slot -> slot -> outcome result := elementwise js_add.
Definition sub : slot -> slot -> outcome result := elementwise js_sub.
Definition mul : slot -> slot -> outcome result := elementwise js_mul.

(** [bubblediv(trace, v1, v2)]: the quotient truncated toward zero and
    the remainder with the sign of the dividend, remainder first.  The
    first statement, [trace.push(...)], raises a [TypeError] unless
    [trace] is an array.  [v2] is [None] when the caller passes no third
    argument; dividing by [undefined], or by zero, does not give an
    integer. *)
Definition bubblediv (trace v1 : val) (v2 : option val) : outcome (list val) :=
  match trace with
  | VArr _ =>
      match v1, v2 with
      | VNum x, Some (VNum y) =>
          if y =? 0 then OutOfModel
          else Ok [VNum (Z.rem x y); VNum (Z.quot x y)]
      | _, _ => OutOfModel
      end
  | _ => Throw (TypeError "trace.push is not a function")
  end.

(** [new Bubble(...Arith.bubblediv(e, v))] as an element of an array:
    the call passes two arguments, so [trace] receives [e] and [v1]
    receives [v].  A bubble inside a bubble is not a [val]. *)
Definition nested_bubblediv (e v : val) : outcome val :=
  _ ← bubblediv e v None;
  OutOfModel.

(** The first branch reads [bv1], which is not declared ([b1v] is). *)
Definition div (b1 b2 : slot) : outcome result :=
  b1 ← deref b1;
  b2 ← deref b2;
  let b1double := Bubble.isDouble b1 in
  let b2double := Bubble.isDouble b2 in
  let b1v := Bubble.value b1 in
  let b2v := Bubble.value b2 in
  if negb b1double && negb b2double then
    Throw (ReferenceError "bv1 is not defined")
  else if b1double && negb b2double then
    r ← js_map (fun e => nested_bubblediv e b2v) b1v;
    Ok (Single (Bubble.mk [VArr r]))
  else if negb b1double && b2double then
    r ← js_map (fun e => nested_bubblediv e b1v) b2v;
    Ok (Single (Bubble.mk [VArr r]))
  else
    let len := Nat.min (Bubble.size b1) (Bubble.size b2) in
    values ← mapM (fun '(x, y) => nested_bubblediv x y)
                  (take len (zip (js_elements b1v) (js_elements b2v)));
    Ok (Single (Bubble.mk values)).
End Arith.

(** ** Comparisons *)

Module Comparator.
(** The loop of [equal] on two arrays of the same size: it stops at the
    first pair that differs. *)
Fixpoint all_strict_eq (l1 l2 : list val) : outcome bool :=
  match l1, l2 with
  | x :: l1', y :: l2' =>
      e ← js_strict_eq x y;
      if e : bool then all_strict_eq l1' l2' else Ok false
  | _, _ => Ok true
  end.

Definition equal (b1 b2 : slot) : outcome bool :=
  b1 ← deref b1;
  b2 ← deref b2;
  let b1double := Bubble.isDouble b1 in
  let b2double := Bubble.isDouble b2 in
  let b1v := Bubble.value b1 in
  let b2v := Bubble.value b2 in
  if (b1double && negb b2double) || (negb b1double && b2double) then Ok false
  else if b1double && b2double then
    if negb (Bubble.size b1 =? Bubble.size b2)%nat then Ok false
    else all_strict_eq (js_elements b1v) (js_elements b2v)
  else js_strict_eq b1v b2v.

(** [&&] does not look at [b2] when [b1] is a double bubble. *)
Definition less (b1 b2 : slot) : outcome bool :=
  b1 ← deref b1;
  if negb (Bubble.isDouble b1) then
    b2 ← deref b2;
    if negb (Bubble.isDouble b2) then js_lt (Bubble.value b1) (Bubble.value b2)
    else Ok false
  else Ok false.

Definition greater (b1 b2 : slot) : outcome bool :=
  b1 ← deref b1;
  if negb (Bubble.isDouble b1) then
    b2 ← deref b2;
    if negb (Bubble.isDouble b2) then js_lt (Bubble.value b1) (Bubble.value b2)
    else Ok false
  else Ok false.

Definition zero (b1 : slot) : outcome bool :=
  b1 ← deref b1;
  if negb (Bubble.isDouble b1) then js_strict_eq (VNum 0) (Bubble.value b1)
  else Ok false.
End Comparator.

(** ** The interpreter *)

Definition oplimit : Z := 10000.

(** The label pre-pass.  [rest] is the part of [tokens] from index [i] on.
    The test for a parameter is made on the token itself, not on its
    opcode. *)
Fixpoint register_labels (i : nat) (rest : list Z) (labels : gmap Z nat)
  : outcome (gmap Z nat) :=
  match rest with
  | [] => Ok labels
  | token :: rest' =>
      labels' ← (if OPCODES.get token =? OPCODES.LBL then
                   match rest' with
                   | [] => Throw (OpcodeError token "not enough arguments")
                   | argument :: _ => Ok (<[argument := (i + 1)%nat]> labels)
                   end
                 else Ok labels);
      if OPCODES.parameterized token then
        match rest' with
        | [] => Ok labels'
        | _ :: rest'' => register_labels (i + 2) rest'' labels'
        end
      else register_labels (i + 1) rest' labels'
  end.

(** [abyss.push(...result)], falling back on [abyss.push(result)] *)
Definition push_result (r : result) : M unit :=
  match r with
  | Null => m_ret tt
  | Single b => abyss_push [Bub b]
  | Several l => abyss_push (List.map Bub l)
  end.

Section Dispatch.
Variable tokens : list Z.
Variable labels : gmap Z nat.

(** [tokens[cursor + 1]], or the "not enough arguments" error *)
Definition argument (cursor : nat) (token : Z) : M Z :=
  match tokens !! (cursor + 1)%nat with
  | None => m_throw (OpcodeError token "not enough arguments")
  | Some a => m_ret a
  end.

(** The "not enough bubbles" test: [n > abyss.length] *)
Definition need_bubbles (n : Z) (token : Z) : M unit :=
  let* len := abyss_length in
  if Z.of_nat len <? n then m_throw (OpcodeError token "not enough bubbles")
  else m_ret tt.

(** The four conditional jumps: the test runs first, the label is looked
    up only when it holds. *)
Definition jump_if (test : bool) (cursor : nat) (a : Z) : nat :=
  if test then
    match labels !! a with
    | Some target => target
    | None => (cursor + 1)%nat
    end
  else (cursor + 1)%nat.

(** The [switch]: the cursor and the [result] it leaves. *)
Definition dispatch (cursor : nat) (token code : Z) : M (nat * result) :=
  match code with
  | 0 (* NOP *) => m_ret (cursor, Null)
  | 1 (* PRN *) =>
      need_bubbles 1 token;;
      let* b := abyss_pop in
      InOut.write b;;
      m_ret (cursor, Null)
  | 2 (* PR1 *) =>
      need_bubbles 1 token;;
      let* b := abyss_pop in
      InOut.writeRaw b;;
      m_ret (cursor, Null)
  | 3 (* RED *) =>
      let* b := InOut.read in
      m_ret (cursor, Single b)
  | 4 (* R3D *) =>
      let* b := InOut.readRaw in
      m_ret (cursor, Single b)
  | 5 (* BLO *) =>
      let* a := argument cursor token in
      m_ret ((cursor + 1)%nat, Single (Bubble.mk [VNum a]))
  | 6 (* SBM *) =>
      let* a := argument cursor token in
      let* r := Abysser.submerge a in
      m_ret ((cursor + 1)%nat, r)
  | 7 (* POP *) =>
      need_bubbles 1 token;;
      let* b := abyss_pop in
      let* r := m_lift (Abysser.pop b) in
      m_ret (cursor, r)
  | 8 (* DPL *) =>
      need_bubbles 1 token;;
      let* b := abyss_pop in
      let* r := m_lift (Abysser.duplicate b) in
      m_ret (cursor, r)
  | 9 (* SRN *) =>
      let* a := argument cursor token in
      need_bubbles a token;;
      let* r := Abysser.surround a in
      m_ret ((cursor + 1)%nat, r)
  | 10 (* MRG *) =>
      need_bubbles 2 token;;
      let* b1 := abyss_pop in
      let* b2 := abyss_pop in
      let* r := m_lift (Abysser.merge b1 b2) in
      m_ret (cursor, r)
  | 11 (* 4DD *) =>
      need_bubbles 2 token;;
      let* b1 := abyss_pop in
      let* b2 := abyss_pop in
      let* r := m_lift (Arith.add b1 b2) in
      m_ret (cursor, r)
  | 12 (* SUB *) =>
      need_bubbles 2 token;;
      let* b1 := abyss_pop in
      let* b2 := abyss_pop in
      let* r := m_lift (Arith.sub b1 b2) in
      m_ret (cursor, r)
  | 13 (* MUL *) =>
      need_bubbles 2 token;;
      let* b1 := abyss_pop in
      let* b2 := abyss_pop in
      let* r := m_lift (Arith.mul b1 b2) in
      m_ret (cursor, r)
  | 14 (* DIV *) =>
      need_bubbles 2 token;;
      let* b1 := abyss_pop in
      let* b2 := abyss_pop in
      let* r := m_lift (Arith.div b1 b2) in
      m_ret (cursor, r)
  | 15 (* CNT *) =>
      need_bubbles 1 token;;
      let* top := abyss_peek 1 in
      let* b := m_lift (deref top) in
      m_ret (cursor, Single (Bubble.mk [VNum (Z.of_nat (Bubble.size b))]))
  | 16 (* LBL *) => m_ret ((cursor + 1)%nat, Null)
  | 17 (* JMP *) =>
      let* a := argument cursor token in
      m_ret (jump_if true cursor a, Null)
  | 18 (* EQL *) =>
      let* a := argument cursor token in
      need_bubbles 2 token;;
      let* b1 := abyss_peek 1 in
      let* b2 := abyss_peek 2 in
      let* test := m_lift (Comparator.equal b1 b2) in
      m_ret (jump_if test cursor a, Null)
  | 19 (* LSS *) =>
      let* a := argument cursor token in
      need_bubbles 2 token;;
      let* b1 := abyss_peek 1 in
      let* b2 := abyss_peek 2 in
      let* test := m_lift (Comparator.less b1 b2) in
      m_ret (jump_if test cursor a, Null)
  | 20 (* GR8 *) =>
      let* a := argument cursor token in
      need_bubbles 2 token;;
      let* b1 := abyss_peek 1 in
      let* b2 := abyss_peek 2 in
      let* test := m_lift (Comparator.greater b1 b2) in
      m_ret (jump_if test cursor a, Null)
  | 21 (* EQZ *) =>
      let* a := argument cursor token in
      need_bubbles 1 token;;
      let* b1 := abyss_peek 1 in
      let* test := m_lift (Comparator.zero b1) in
      m_ret (jump_if test cursor a, Null)
  | 31 (* TRM *) => m_ret (List.length tokens, Null)
  | _ => m_throw (OpcodeError token "invalid opcode")
  end.

(** One turn of the main loop on the token under the cursor: the next
    cursor (or the exception), the operation counter, the machine. *)
Definition interpreter_step (token : Z) (cursor : nat) (executed : Z) (m : machine)
  : outcome nat * Z * machine :=
  match (let* cr := dispatch cursor token (OPCODES.get token) in
         push_result (snd cr);;
         m_ret (fst cr)) m with
  | (Ok cursor, m') =>
      let cursor := (cursor + 1)%nat in
      let executed := executed + 1 in
      if oplimit <=? executed
      then (Throw (LimitError "too many operations"), executed, m')
      else (Ok cursor, executed, m')
  | (Throw e, m') => (Throw e, executed, m')
  | (OutOfModel, m') => (OutOfModel, executed, m')
  end.

(** [while (cursor < tokens.length)].  The counter stops the loop after
    [oplimit] turns at the latest, so that much fuel is enough
    ([interpreter_loop_fuel] below); [None] tells that the fuel ran out.
    The counter is returned with the outcome. *)
Fixpoint interpreter_loop (fuel : nat) (cursor : nat) (executed : Z) (m : machine)
  : option (outcome unit * Z * machine) :=
  match tokens !! cursor with
  | None => Some (Ok tt, executed, m)
  | Some token =>
      match fuel with
      | O => None
      | S fuel' =>
          match interpreter_step token cursor executed m with
          | (Ok cursor', executed', m') => interpreter_loop fuel' cursor' executed' m'
          | (Throw e, executed', m') => Some (Throw e, executed', m')
          | (OutOfModel, executed', m') => Some (OutOfModel, executed', m')
          end
      end
  end.
End Dispatch.

(** The pre-pass and the main loop: how the loop ended, the number of
    operations executed, the machine. *)
Definition interpreter_run (tokens : list Z) (m : machine)
  : option (outcome unit * Z * machine) :=
  match register_labels 0 tokens ∅ with
  | Ok labels => interpreter_loop tokens labels (Z.to_nat oplimit) 0 0 m
  | Throw e => Some (Throw e, 0, m)
  | OutOfModel => Some (OutOfModel, 0, m)
  end.

(** After the loop: the value of the top bubble, [0] on an empty abyss,
    and the abyss is emptied. *)
Definition interpreter_finish : M val :=
  let* len := abyss_length in
  let* retval := (if (0 <? len)%nat then
                    let* top := abyss_pop in
                    let* b := m_lift (deref top) in
                    m_ret (Bubble.value b)
                  else m_ret (VNum 0)) in
  abyss_clear;;
  m_ret retval.

Definition interpreter (tokens : list Z) : M val := fun m =>
  match interpreter_run tokens m with
  | Some (Ok _, _, m') => interpreter_finish m'
  | Some (Throw e, _, m') => (Throw e, m')
  | Some (OutOfModel, _, m') => (OutOfModel, m')
  | None => (OutOfModel, m)
  end.

(** ** The entry point *)

Module AWA5.
(** [new AWA5()] *)
Definition new : machine :=
  {| abyss := []; stdin := ArrayReader.new []; stdout := [] |}.

Definition setInputReader (reader : ArrayReader.t) (this : machine) : machine :=
  {| abyss := abyss this; stdin := reader; stdout := stdout this |}.

(** The [catch] clause: the exception is written out and [run] returns 1. *)
Definition caught (e : error) (this : machine) : outcome val * machine :=
  (Ok (VNum 1),
   {| abyss := abyss this; stdin := stdin this; stdout := stdout this ++ [WError e] |}).

Definition run (input : string) (this : machine) : outcome val * machine :=
  match parser input with
  | Ok tokens =>
      match interpreter tokens this with
      | (Ok r, this') =>
          (Ok r, {| abyss := abyss this'; stdin := ArrayReader.reset (stdin this');
                    stdout := stdout this' |})
      | (Throw e, this') => caught e this'
      | (OutOfModel, this') => (OutOfModel, this')
      end
  | Throw e => caught e this
  | OutOfModel => (OutOfModel, this)
  end.
End AWA5.

(** ** Notions used in the statements *)

(** The states the decoding loop goes through when started in [st]: each
    turn is taken because the loop condition holds, and leaves the next
    state. *)
Inductive parser_reaches (cleaned : string) (st : parser_state) : parser_state -> Prop :=
| reaches_start : parser_reaches cleaned st st
| reaches_turn st' st'' :
    parser_reaches cleaned st st' ->
    parser_guard cleaned st' = true ->
    parser_step cleaned st' = Ok st'' ->
    parser_reaches cleaned st st''.

(** The stopping rule as the specification words it: on [input], whenever
    the loop decodes one more unit, at least four characters remain after
    the cursor. *)
Definition decodes_only_with_four_left (input : string) : Prop :=
  forall start st,
    String.index 0 "awa" (sanitize input) = Some start ->
    parser_reaches (sanitize input) (parser_init start) st ->
    parser_guard (sanitize input) st = true ->
    (4 <= String.length (sanitize input) - p_cursor st)%nat.

(** A bubble that holds one integer, or none (which reads as 0). *)
Definition scalar_of (b : Bubble.t) (z : Z) : Prop :=
  Bubble.backing b = [VNum z] \/ (Bubble.backing b = [] /\ z = 0).

(** A computation that leaves the machine as it found it, whatever its
    outcome. *)
Definition preserves {A} (c : M A) : Prop := forall m, snd (c m) = m.

(** The test each conditional jump makes on two integers, [x] on top of
    [y] (EQZ looks at [x] only): GR8 makes the test of LSS. *)
Definition integer_test (code x y : Z) : bool :=
  if code =? OPCODES.EQL then x =? y
  else if code =? OPCODES.EQZ then 0 =? x
  else x <? y.

(** ** Notions used in the further properties *)

(** The bubble whose backing holds the integers [l]. *)
Definition integers (l : list Z) : Bubble.t := Bubble.mk (List.map VNum l).

(** Single bubbles holding the integers [ys], one each, bottom first. *)
Definition scalars (ys : list Z) : list slot :=
  List.map (fun y => Bub (Bubble.mk [VNum y])) ys.

(** What the decoding loop keeps true of its variables: the target is 5 or
    8 bits, fewer bits than that are read, the value read so far fits the
    bits read (a sign marker counts as the sign bit), and the tokens
    pushed fit 8 bits, signed or unsigned. *)
Definition parser_inv (st : parser_state) : Prop :=
  (p_target st = 5 \/ p_target st = 8)
  /\ 0 <= p_bits st < p_target st
  /\ - 2 ^ (p_bits st - 1) <= p_value st < 2 ^ p_bits st
  /\ Forall (fun t => -128 <= t <= 255) (p_tokens st).

(** The text of a token sequence, for the round trip through the
    tokenizer.  A unit is one of the three spellings the decoding loop
    accepts. *)
Inductive unit_sym := One | Zero | Seed.

Definition unit_text (u : unit_sym) : string :=
  match u with
  | One => "wa"
  | Zero => " awa"
  | Seed => " ~wa"
  end.

Fixpoint units_text (l : list unit_sym) : string :=
  match l with
  | [] => ""
  | u :: l' => unit_text u ++ units_text l'
  end.

(** The [n] low bits of [v], most significant first. *)
Fixpoint bit_units (n : nat) (v : Z) : list unit_sym :=
  match n with
  | O => []
  | S n' => (if Z.testbit v (Z.of_nat n') then One else Zero) :: bit_units n' v
  end.

(** A token on [width] bits: a negative one starts with the sign marker,
    which stands for its sign bit. *)
Definition token_units (width : nat) (v : Z) : list unit_sym :=
  if v <? 0 then Seed :: bit_units (width - 1) v else bit_units width v.

(** The width of a token and whether the next one is an argument, by the
    rule of the decoding loop. *)
Definition token_width (parameter : bool) : nat := if parameter then 8%nat else 5%nat.

Definition next_is_parameter (parameter : bool) (token : Z) : bool :=
  if parameter then false else OPCODES.parameterized (OPCODES.get token).

Fixpoint program_units (parameter : bool) (tokens : list Z) : list unit_sym :=
  match tokens with
  | [] => []
  | t :: ts =>
      token_units (token_width parameter) t
        ++ program_units (next_is_parameter parameter t) ts
  end.

Definition encode (tokens : list Z) : string :=
  "awa" ++ units_text (program_units false tokens).

(** The token sequences that have a text: an opcode token fits 5 bits and
    an argument token 8 bits, signed or unsigned. *)
Fixpoint encodable (parameter : bool) (tokens : list Z) : Prop :=
  match tokens with
  | [] => True
  | t :: ts =>
      - 2 ^ (Z.of_nat (token_width parameter) - 1) <= t
         < 2 ^ Z.of_nat (token_width parameter)
      /\ encodable (next_is_parameter parameter t) ts
  end.

(** The state of the decoding loop between two tokens. *)
Definition parser_fresh (cursor : nat) (parameter : bool) (tokens : list Z)
  : parser_state :=
  {| p_cursor := cursor; p_bits := 0; p_target := Z.of_nat (token_width parameter);
     p_value := 0; p_parameter := parameter; p_tokens := tokens |}.

(** A cleaned text: only the four characters of the language, and no two
    spaces in a row.  [after_space] tells that a space stands before the
    list. *)
Fixpoint single_spaced (after_space : bool) (l : list ascii) : Prop :=
  match l with
  | [] => True
  | c :: l' =>
      if Ascii.eqb c " " then after_space = false /\ single_spaced true l'
      else single_spaced false l'
  end.

Definition clean_text (after_space : bool) (l : list ascii) : Prop :=
  Forall (fun c => c ∈ ["a"; "w"; "~"; " "]%char) l /\ single_spaced after_space l.

(** What a piece of a run does to the two streams: the output written so
    far stays and at most [o] items come after it; the lines behind the
    reader stay and at most [i] of them are read. *)
Definition io_within (i o : nat) (m m' : machine) : Prop :=
  (exists ws, stdout m' = stdout m ++ ws /\ (List.length ws <= o)%nat)
  /\ ArrayReader.backing (stdin m') = ArrayReader.backing (stdin m)
  /\ ArrayReader.line (stdin m) <= ArrayReader.line (stdin m')
     <= ArrayReader.line (stdin m) + Z.of_nat i.

Definition io_bound {A} (i o : nat) (c : M A) : Prop :=
  forall m, io_within i o m (snd (c m)).

(** The instructions that read and the instructions that write. *)
Definition reads (code : Z) : nat :=
  if bool_decide (code ∈ [OPCODES.RED; OPCODES.R3D]) then 1%nat else 0%nat.

Definition prints (code : Z) : nat :=
  if bool_decide (code ∈ [OPCODES.PRN; OPCODES.PR1]) then 1%nat else 0%nat.

(** * Properties *)

(** ** Helper lemmas *)

Lemma m_bind_ok {A B} (c : M A) (k : A -> M B) m a m' :
  c m = (Ok a, m') -> m_bind c k m = k a m'.
Proof. unfold m_bind. intros ->. done. Qed.

Lemma m_bind_throw {A B} (c : M A) (k : A -> M B) m e m' :
  c m = (Throw e, m') -> m_bind c k m = (Throw e, m').
Proof. unfold m_bind. intros ->. done. Qed.

Lemma m_bind_inv {A B} (c : M A) (k : A -> M B) m b m' :
  m_bind c k m = (Ok b, m') ->
  exists a m1, c m = (Ok a, m1) /\ k a m1 = (Ok b, m').
Proof.
  unfold m_bind. destruct (c m) as [[a| |] m1]; [|done..]. eauto.
Qed.

Lemma argument_inv tokens cursor token m a m' :
  argument tokens cursor token m = (Ok a, m') ->
  tokens !! (cursor + 1)%nat = Some a.
Proof.
  unfold argument. destruct (tokens !! _); [|done]. by intros [= <- <-].
Qed.

Lemma abyss_pop_snoc rest s r w :
  abyss_pop {| abyss := rest ++ [s]; stdin := r; stdout := w |}
  = (Ok s, {| abyss := rest; stdin := r; stdout := w |}).
Proof.
  unfold abyss_pop. cbn [abyss stdin stdout].
  rewrite last_snoc, removelast_last. done.
Qed.

Lemma need_bubbles_enough n token m :
  n <= Z.of_nat (List.length (abyss m)) -> need_bubbles n token m = (Ok tt, m).
Proof.
  intros H. unfold need_bubbles, m_bind, abyss_length.
  destruct (Z.ltb_spec (Z.of_nat (List.length (abyss m))) n); [lia|done].
Qed.

Lemma mapM_outcome_Ok {A B} (f : A -> outcome B) (l : list A) (k : list B) :
  mapM f l = Ok k <-> Forall2 (fun a b => f a = Ok b) l k.
Proof.
  revert k. induction l as [|a l IH]; intros k; cbn.
  - split; [intros [= <-]; constructor | inversion 1; done].
  - split.
    + destruct (f a) as [b| |] eqn:Ea; cbn; try done.
      destruct (mapM f l) as [k'| |] eqn:El; cbn; try done.
      intros [= <-]. constructor; [done|]. by apply IH.
    + inversion 1 as [|? b ? k' Ha Hl]; subst.
      rewrite Ha. cbn. apply IH in Hl. rewrite Hl. done.
Qed.

(** ** The tokenizer *)

Lemma substring_length s : forall n m,
  String.length (String.substring n m s) = Nat.min m (String.length s - n).
Proof.
  induction s as [|c s IH]; intros [|n] [|m]; cbn; rewrite ?IH; try done.
  f_equal. lia.
Qed.

Lemma substring_inside s n m t :
  String.substring n m s = t -> String.length t = m -> (0 < m)%nat ->
  (n + m <= String.length s)%nat.
Proof.
  intros <-. rewrite substring_length. lia.
Qed.

Lemma parser_guard_spec cleaned st :
  parser_guard cleaned st = true <-> (2 <= String.length cleaned - p_cursor st)%nat.
Proof.
  unfold parser_guard. rewrite Z.ltb_lt. lia.
Qed.

(** The three units the loop accepts, with where they leave the cursor. *)
Lemma parser_unit_spec cleaned st value cursor :
  parser_unit cleaned st = Ok (value, cursor) ->
  (cursor = (p_cursor st + 2)%nat /\ js_substring cleaned (p_cursor st) cursor = "wa"
     /\ value = js_shl1 (p_value st) + 1)
  \/ (cursor = (p_cursor st + 4)%nat /\ js_substring cleaned (p_cursor st) cursor = " awa"
     /\ value = js_shl1 (p_value st))
  \/ (cursor = (p_cursor st + 4)%nat /\ js_substring cleaned (p_cursor st) cursor = " ~wa"
     /\ p_bits st = 0 /\ value = -1).
Proof.
  unfold parser_unit.
  destruct (String.eqb_spec "wa" (js_substring cleaned (p_cursor st) (p_cursor st + 2))) as [E1|_].
  { intros [= <- <-]. left. done. }
  destruct (String.eqb_spec " awa" (js_substring cleaned (p_cursor st) (p_cursor st + 4))) as [E2|_].
  { intros [= <- <-]. right; left. done. }
  destruct (String.eqb_spec " ~wa" (js_substring cleaned (p_cursor st) (p_cursor st + 4))) as [E3|_];
    cbn [andb]; [|done].
  destruct (Z.eqb_spec (p_bits st) 0); [|done].
  intros [= <- <-]. right; right. done.
Qed.

Lemma parser_step_cursor cleaned st st' :
  parser_step cleaned st = Ok st' ->
  exists value, parser_unit cleaned st = Ok (value, p_cursor st').
Proof.
  unfold parser_step. destruct (parser_unit cleaned st) as [[value cursor]| |]; cbn; try done.
  intros H. exists value. repeat case_match; simplify_eq; done.
Qed.

Lemma parser_step_advances cleaned st st' :
  parser_step cleaned st = Ok st' ->
  (p_cursor st + 2 <= p_cursor st' <= String.length cleaned)%nat.
Proof.
  intros [value Hu]%parser_step_cursor.
  apply parser_unit_spec in Hu as [(-> & Hs & _)|[(-> & Hs & _)|(-> & Hs & _)]];
    unfold js_substring in Hs;
    eapply substring_inside in Hs; cbn; lia.
Qed.

(** The length of the text is fuel enough for the decoding loop. *)
Lemma parser_loop_fuel cleaned : forall fuel st,
  (String.length cleaned - p_cursor st <= fuel)%nat ->
  parser_loop fuel cleaned st <> None.
Proof.
  induction fuel as [|fuel IH]; intros st Hf; cbn.
  - destruct (parser_guard cleaned st) eqn:G; [|done].
    apply parser_guard_spec in G. lia.
  - destruct (parser_guard cleaned st) eqn:G; [|done].
    destruct (parser_step cleaned st) as [st'| |] eqn:E; [|done..].
    apply IH. apply parser_step_advances in E. lia.
Qed.

(** [parser] always ends: with tokens or with a syntax error. *)
Lemma parser_total input :
  exists cleaned, cleaned = sanitize input /\
    match String.index 0 "awa" cleaned with
    | None => parser input = Throw (SyntaxError "missing start of block")
    | Some start =>
        parser_loop (String.length cleaned) cleaned (parser_init start)
        = Some (parser input)
    end.
Proof.
  exists (sanitize input). split; [done|]. unfold parser.
  destruct (index 0 "awa" (sanitize input)) as [start|]; [|done].
  destruct (parser_loop _ _ _) eqn:E; [done|].
  apply parser_loop_fuel in E; [done|lia].
Qed.

(** What one turn of the loop does once its unit is decoded: it always
    yields a state, with the cursor after the unit. *)
Lemma parser_step_of_unit cleaned st value cursor :
  parser_unit cleaned st = Ok (value, cursor) ->
  exists st', parser_step cleaned st = Ok st' /\ p_cursor st' = cursor.
Proof.
  intros Hu. unfold parser_step. rewrite Hu. cbn [mbind outcome_bind].
  repeat case_match; eexists; (split; [reflexivity|done]).
Qed.

(** One turn of the loop when the guard holds. *)
Lemma parser_loop_turn cleaned st fuel :
  (2 <= String.length cleaned - p_cursor st)%nat ->
  parser_loop (S fuel) cleaned st
  = match parser_step cleaned st with
    | Ok st' => parser_loop fuel cleaned st'
    | Throw e => Some (Throw e)
    | OutOfModel => Some OutOfModel
    end.
Proof.
  intros H. apply parser_guard_spec in H. cbn [parser_loop]. by rewrite H.
Qed.

(** The loop when the guard fails. *)
Lemma parser_loop_stop cleaned st fuel :
  (String.length cleaned - p_cursor st < 2)%nat ->
  parser_loop fuel cleaned st = Some (Ok (p_tokens st)).
Proof.
  intros H.
  assert (parser_guard cleaned st = false) as G.
  { destruct (parser_guard cleaned st) eqn:G; [|done].
    apply parser_guard_spec in G. lia. }
  destruct fuel; cbn [parser_loop]; by rewrite G.
Qed.

(** C9, as amended.  In any state of the decoding loop, with [left] the
    number of characters after the cursor:
    - with fewer than two characters left the loop stops and returns its
      tokens;
    - with two characters or more left it does not stop: it takes a turn,
      which decodes a unit or raises the syntax error;
    - the unit [wa] is decoded wherever the text has it at the cursor,
      so from any suffix of two characters or more; from a suffix of two
      or three characters the loop decodes it and then stops;
    - every turn that decodes moves the cursor strictly forward and stays
      inside the text, and the unit it decoded is the text between the old
      and the new cursor: [wa], or one of the four-character units [ awa]
      and [ ~wa], which are only decoded with four characters or more
      left. *)
Theorem C9_tokenizer_stops_below_two_characters
    (cleaned : string) (st : parser_state) :
  let left := (String.length cleaned - p_cursor st)%nat in
  ((left < 2)%nat ->
   forall fuel, parser_loop fuel cleaned st = Some (Ok (p_tokens st)))
  /\ ((2 <= left)%nat ->
      forall fuel,
        parser_loop (S fuel) cleaned st
        = match parser_step cleaned st with
          | Ok st' => parser_loop fuel cleaned st'
          | Throw e => Some (Throw e)
          | OutOfModel => Some OutOfModel
          end)
  /\ (js_substring cleaned (p_cursor st) (p_cursor st + 2) = "wa" ->
      (2 <= left)%nat
      /\ parser_unit cleaned st
         = Ok (js_shl1 (p_value st) + 1, (p_cursor st + 2)%nat)
      /\ exists st',
           parser_step cleaned st = Ok st'
           /\ p_cursor st' = (p_cursor st + 2)%nat
           /\ (forall fuel,
                 parser_loop (S fuel) cleaned st = parser_loop fuel cleaned st')
           /\ ((left < 4)%nat ->
               forall fuel,
                 parser_loop (S fuel) cleaned st = Some (Ok (p_tokens st'))))
  /\ (forall st',
        parser_step cleaned st = Ok st' ->
        (p_cursor st < p_cursor st' <= String.length cleaned)%nat
        /\ (let unit := js_substring cleaned (p_cursor st) (p_cursor st') in
            String.length unit = (p_cursor st' - p_cursor st)%nat
            /\ (unit = "wa"
                \/ ((unit = " awa" \/ unit = " ~wa") /\ (4 <= left)%nat)))).
Proof.
  intros left. subst left.
  split; [intros H fuel; by apply parser_loop_stop|].
  split; [intros H fuel; by apply parser_loop_turn|].
  split.
  - intros Hwa.
    assert (Hl : (2 <= String.length cleaned - p_cursor st)%nat).
    { unfold js_substring in Hwa. eapply substring_inside in Hwa; cbn; lia. }
    assert (Hu : parser_unit cleaned st
                 = Ok (js_shl1 (p_value st) + 1, (p_cursor st + 2)%nat)).
    { unfold parser_unit. by rewrite Hwa. }
    split; [exact Hl|]. split; [exact Hu|].
    destruct (parser_step_of_unit _ _ _ _ Hu) as (st' & E & Hc).
    exists st'. split; [exact E|]. split; [exact Hc|].
    assert (Ht : forall fuel,
               parser_loop (S fuel) cleaned st = parser_loop fuel cleaned st').
    { intros fuel. rewrite parser_loop_turn by exact Hl. by rewrite E. }
    split; [exact Ht|].
    intros H4 fuel. rewrite Ht. apply parser_loop_stop. lia.
  - intros st' E.
    split; [apply parser_step_advances in E; lia|].
    apply parser_step_cursor in E as [value Hu].
    apply parser_unit_spec in Hu as [(-> & Hs & _)|[(-> & Hs & _)|(-> & Hs & _)]];
      cbv zeta; rewrite Hs; (split; [cbn; lia|]).
    + by left.
    + right. split; [by left|].
      unfold js_substring in Hs. eapply substring_inside in Hs; cbn; lia.
    + right. split; [by right|].
      unfold js_substring in Hs. eapply substring_inside in Hs; cbn; lia.
Qed.

(** On [awawa] two characters are left after the start marker: the loop
    decodes [wa] from them and stops. *)
Lemma C9_tokenizer_stops_below_two_characters_witness :
  js_substring "awawa" (p_cursor (parser_init 0)) (p_cursor (parser_init 0) + 2) = "wa"
  /\ (String.length "awawa" - p_cursor (parser_init 0) = 2)%nat
  /\ parser_unit "awawa" (parser_init 0) = Ok (1, 5%nat).
Proof.
  destruct (C9_tokenizer_stops_below_two_characters "awawa" (parser_init 0))
    as (_ & _ & H & _).
  destruct (H eq_refl) as (_ & Hu & _).
  split; [reflexivity|]. split; [reflexivity|]. exact Hu.
Defined.

(** C9, as stated, fails: on [awawa] the loop starts with two characters
    after the cursor and decodes the unit [wa] from them.  On the same
    pattern, the fifth [wa] of [awawawawawawa] completes the token 31. *)
Lemma C9_counterexample :
  ~ decodes_only_with_four_left "awawa"
  /\ parser_step "awawa" (parser_init 0)
     = Ok {| p_cursor := 5; p_bits := 1; p_target := 5; p_value := 1;
             p_parameter := false; p_tokens := [] |}
  /\ parser "awawawawawawa" = Ok [31].
Proof.
  split; [|split; reflexivity].
  intros H. specialize (H 0%nat (parser_init 0) eq_refl (reaches_start _ _) eq_refl).
  vm_compute in H. lia.
Qed.

(** ** Bubbles, arithmetic and comparisons *)

Lemma scalar_of_value b z : scalar_of b z -> Bubble.value b = VNum z.
Proof.
  destruct b as [l]. unfold Bubble.value.
  intros [H|[H ->]]; cbn in H; subst; done.
Qed.

Lemma scalar_of_single b z : scalar_of b z -> Bubble.isDouble b = false.
Proof.
  destruct b as [l]. unfold Bubble.isDouble.
  intros [H|[H ->]]; cbn in H; subst; done.
Qed.

Lemma isDouble_value b :
  Bubble.isDouble b = true -> Bubble.value b = VArr (Bubble.backing b).
Proof. destruct b as [[|x [|y l]]]; done. Qed.

(** The broadcasting branches of [add], [sub] and [mul]: the mapped array
    becomes the single value of the new bubble. *)
Lemma elementwise_broadcast op (v s : Bubble.t) (l : list val) :
  Bubble.isDouble v = true -> Bubble.isDouble s = false ->
  Forall2 (fun e x => op e (Bubble.value s) = Ok x) (Bubble.backing v) l ->
  Arith.elementwise op (Bub v) (Bub s) = Ok (Single (Bubble.mk [VArr l]))
  /\ Arith.elementwise op (Bub s) (Bub v) = Ok (Single (Bubble.mk [VArr l])).
Proof.
  intros Hv Hs Hl. apply mapM_outcome_Ok in Hl.
  unfold Arith.elementwise. cbn [deref mbind outcome_bind].
  rewrite Hv, Hs, (isDouble_value v Hv). cbn [negb andb js_map].
  rewrite Hl. done.
Qed.

(** The bubble that a broadcast leaves is not a double bubble. *)
Lemma boxed_is_single (l : list val) :
  Bubble.isDouble (Bubble.mk [VArr l]) = false
  /\ Bubble.size (Bubble.mk [VArr l]) = 0%nat
  /\ Bubble.value (Bubble.mk [VArr l]) = VArr l.
Proof. done. Qed.

(** [Abysser.merge] has no path that returns. *)
Lemma merge_always_throws s1 s2 : exists e, Abysser.merge s1 s2 = Throw e.
Proof.
  unfold Abysser.merge. destruct s1 as [|b1]; cbn; [eauto|].
  destruct (Bubble.isDouble b1); cbn; [eauto|].
  destruct s2 as [|b2]; cbn; [eauto|].
  destruct (Bubble.isDouble b2); cbn; eauto.
Qed.

(** What [bubblediv] computes when it is given a frame array and two
    integers: the pair the specification of DIV asks for. *)
Lemma bubblediv_pair (frames : list val) (x y : Z) :
  y <> 0 ->
  Arith.bubblediv (VArr frames) (VNum x) (Some (VNum y))
  = Ok [VNum (Z.rem x y); VNum (Z.quot x y)]
  /\ Z.quot x y * y + Z.rem x y = x
  /\ Z.abs (Z.rem x y) < Z.abs y
  /\ 0 <= Z.rem x y * x.
Proof.
  intros Hy. cbn. destruct (Z.eqb_spec y 0); [done|].
  split; [done|]. split; [|split].
  - rewrite Z.mul_comm. symmetry. apply Z.quot_rem'.
  - apply Z.rem_bound_abs. done.
  - apply Z.rem_sign_mul. done.
Qed.

(** ** The dispatch loop *)

(** Case analysis on the comparisons with the limit left in the goal. *)
Ltac leb_cases :=
  repeat match goal with
         | |- context [?a <=? ?b] => destruct (Z.leb_spec a b)
         end.

Lemma push_result_ok r m : exists m', push_result r m = (Ok tt, m').
Proof. destruct r; cbn; eauto. Qed.

(** One turn of the loop, from what the [switch] does. *)
Lemma interpreter_step_ok tokens labels token cursor executed m c r m1 :
  dispatch tokens labels cursor token (OPCODES.get token) m = (Ok (c, r), m1) ->
  interpreter_step tokens labels token cursor executed m
  = if oplimit <=? executed + 1
    then (Throw (LimitError "too many operations"), executed + 1, snd (push_result r m1))
    else (Ok (c + 1)%nat, executed + 1, snd (push_result r m1)).
Proof.
  intros H. unfold interpreter_step.
  rewrite (m_bind_ok _ _ _ _ _ H). cbn [snd fst].
  destruct (push_result_ok r m1) as [m2 E].
  rewrite (m_bind_ok _ _ _ _ _ E), E. done.
Qed.

Lemma interpreter_step_throw tokens labels token cursor executed m e m1 :
  dispatch tokens labels cursor token (OPCODES.get token) m = (Throw e, m1) ->
  interpreter_step tokens labels token cursor executed m = (Throw e, executed, m1).
Proof.
  intros H. unfold interpreter_step. rewrite (m_bind_throw _ _ _ _ _ H). done.
Qed.

(** A turn that goes on has counted one more operation and stays under
    the limit. *)
Lemma interpreter_step_counts tokens labels token cursor executed m c executed' m' :
  interpreter_step tokens labels token cursor executed m = (Ok c, executed', m') ->
  executed' = executed + 1 /\ executed' < oplimit.
Proof.
  unfold interpreter_step.
  destruct (m_bind _ _ m) as [[c0| |] m0]; [|done..].
  destruct (Z.leb_spec oplimit (executed + 1)); [done|].
  intros [= <- <- <-]. done.
Qed.

(** A turn that starts with [oplimit - 1] operations counted does not go
    on. *)
Lemma interpreter_step_last tokens labels token cursor m c executed' m' :
  interpreter_step tokens labels token cursor (oplimit - 1) m <> (Ok c, executed', m').
Proof.
  intros H. apply interpreter_step_counts in H. lia.
Qed.

(** However the loop ends, it has counted at most [oplimit] operations;
    when it ends normally, fewer. *)
Lemma interpreter_loop_counts tokens labels : forall fuel cursor executed m o n m',
  executed < oplimit ->
  interpreter_loop tokens labels fuel cursor executed m = Some (o, n, m') ->
  executed <= n <= oplimit /\ (o = Ok tt -> n < oplimit).
Proof.
  induction fuel as [|fuel IH]; intros cursor executed m o n m' He; cbn.
  - destruct (tokens !! cursor); [done|]. intros [= <- <- <-]. lia.
  - destruct (tokens !! cursor) as [token|]; [|intros [= <- <- <-]; lia].
    destruct (interpreter_step tokens labels token cursor executed m)
      as [[[c| |] e] m1] eqn:E.
    + apply interpreter_step_counts in E as [-> E]. intros H.
      apply IH in H as [H1 H2]; [|done]. split; [lia|done].
    + intros [= <- <- <-]. split; [|done].
      unfold interpreter_step in E.
      destruct (m_bind _ _ m) as [[c0| |] m0]; [|by simplify_eq; lia..].
      destruct (Z.leb_spec oplimit (executed + 1)); simplify_eq. lia.
    + intros [= <- <- <-]. split; [|done].
      unfold interpreter_step in E.
      destruct (m_bind _ _ m) as [[c0| |] m0]; [|by simplify_eq; lia..].
      destruct (Z.leb_spec oplimit (executed + 1)); simplify_eq.
Qed.

(** [oplimit] turns of fuel are enough for the main loop. *)
Lemma interpreter_loop_fuel tokens labels : forall fuel cursor executed m,
  0 <= executed < oplimit ->
  oplimit - executed <= Z.of_nat fuel ->
  interpreter_loop tokens labels fuel cursor executed m <> None.
Proof.
  induction fuel as [|fuel IH]; intros cursor executed m He Hf; [lia|].
  cbn. destruct (tokens !! cursor) as [token|]; [|done].
  destruct (interpreter_step tokens labels token cursor executed m)
    as [[[c| |] e] m1] eqn:E; [|done..].
  apply interpreter_step_counts in E as [-> E].
  apply IH; lia.
Qed.

(** [interpreter_run] always ends. *)
Lemma interpreter_run_total tokens m : interpreter_run tokens m <> None.
Proof.
  unfold interpreter_run. destruct (register_labels 0 tokens ∅); [|done..].
  apply interpreter_loop_fuel; unfold oplimit; lia.
Qed.

(** A run that returns has emptied the abyss. *)
Lemma interpreter_ok_clears tokens m v m' :
  interpreter tokens m = (Ok v, m') -> abyss m' = [].
Proof.
  unfold interpreter.
  destruct (interpreter_run tokens m) as [[[[[]| |] n] m1]|]; [|done..].
  unfold interpreter_finish, m_bind, abyss_length, abyss_clear, m_ret.
  destruct (0 <? List.length (abyss m1))%nat; cbn.
  - destruct (default Undefined (last (abyss m1))); cbn; [done|].
    intros [= <- <-]. done.
  - intros [= <- <-]. done.
Qed.

(** The five opcodes that pop two bubbles and hand them to a function:
    on an abyss with [top] over [second] they run the function on the rest
    of the abyss. *)
Lemma dispatch_two_popped tokens labels cursor token code f top second rest r w :
  (code = OPCODES.MRG /\ f = Abysser.merge) \/ (code = OPCODES.DD4 /\ f = Arith.add)
    \/ (code = OPCODES.SUB /\ f = Arith.sub) \/ (code = OPCODES.MUL /\ f = Arith.mul)
    \/ (code = OPCODES.DIV /\ f = Arith.div) ->
  dispatch tokens labels cursor token code
    {| abyss := rest ++ [second; top]; stdin := r; stdout := w |}
  = match f top second with
    | Ok r0 => (Ok (cursor, r0), {| abyss := rest; stdin := r; stdout := w |})
    | Throw e => (Throw e, {| abyss := rest; stdin := r; stdout := w |})
    | OutOfModel => (OutOfModel, {| abyss := rest; stdin := r; stdout := w |})
    end.
Proof.
  intros Hf.
  replace (rest ++ [second; top]) with ((rest ++ [second]) ++ [top])
    by (by rewrite <- app_assoc).
  destruct Hf as [[-> ->]|[[-> ->]|[[-> ->]|[[-> ->]|[-> ->]]]]];
    cbv beta iota delta [dispatch OPCODES.MRG OPCODES.DD4 OPCODES.SUB OPCODES.MUL
                          OPCODES.DIV];
    (unfold m_bind at 1;
     rewrite need_bubbles_enough by (cbn; rewrite !length_app; cbn; lia));
    (unfold m_bind at 1; rewrite abyss_pop_snoc);
    (unfold m_bind at 1; rewrite abyss_pop_snoc);
    unfold m_bind, m_lift, m_ret; by destruct (_ top second).
Qed.

(** ** The claims *)

(** C1 (the code departs from the claim).  The claim asks that ADD, SUB and
    MUL on one double bubble [v] and one single bubble [s] push a double
    bubble of the size of [v].  The elements the code computes are the
    claimed ones ([l] below), but it passes the mapped array as the single
    argument of [new Bubble], so what it pushes is a bubble with one
    value, the array: not a double bubble, of size 0, and different from
    the bubble [Bubble.mk l] of the claim.  The branch for two double
    bubbles spreads its array. *)
Theorem C1_broadcast_pushes_a_boxed_array
    tokens labels cursor token executed code op
    (v s : Bubble.t) (l : list val) rest r w :
  (code = OPCODES.DD4 /\ op = js_add) \/ (code = OPCODES.SUB /\ op = js_sub)
    \/ (code = OPCODES.MUL /\ op = js_mul) ->
  OPCODES.get token = code ->
  executed + 1 < oplimit ->
  Bubble.isDouble v = true ->
  Bubble.isDouble s = false ->
  Forall2 (fun e x => op e (Bubble.value s) = Ok x) (Bubble.backing v) l ->
  interpreter_step tokens labels token cursor executed
    {| abyss := rest ++ [Bub s; Bub v]; stdin := r; stdout := w |}
  = (Ok (cursor + 1)%nat, executed + 1,
     {| abyss := rest ++ [Bub (Bubble.mk [VArr l])]; stdin := r; stdout := w |})
  /\ interpreter_step tokens labels token cursor executed
       {| abyss := rest ++ [Bub v; Bub s]; stdin := r; stdout := w |}
     = (Ok (cursor + 1)%nat, executed + 1,
        {| abyss := rest ++ [Bub (Bubble.mk [VArr l])]; stdin := r; stdout := w |})
  /\ Bubble.isDouble (Bubble.mk [VArr l]) = false
  /\ Bubble.size (Bubble.mk [VArr l]) = 0%nat
  /\ Bubble.mk [VArr l] <> Bubble.mk l.
Proof.
  intros Hop Hc He Hv Hs Hl.
  destruct (elementwise_broadcast op v s l Hv Hs Hl) as [E1 E2].
  assert (forall top second,
    Arith.elementwise op (Bub top) (Bub second) = Ok (Single (Bubble.mk [VArr l])) ->
    interpreter_step tokens labels token cursor executed
      {| abyss := rest ++ [Bub second; Bub top]; stdin := r; stdout := w |}
    = (Ok (cursor + 1)%nat, executed + 1,
       {| abyss := rest ++ [Bub (Bubble.mk [VArr l])]; stdin := r; stdout := w |})) as Hstep.
  { intros top second E.
    erewrite interpreter_step_ok; cycle 1.
    { rewrite Hc, (dispatch_two_popped _ _ _ _ _ (Arith.elementwise op)), E; [done|].
      destruct Hop as [[-> ->]|[[-> ->]|[-> ->]]]; tauto. }
    destruct (Z.leb_spec oplimit (executed + 1)); [lia|]. done. }
  split; [by apply Hstep|]. split; [by apply Hstep|].
  split; [done|]. split; [done|].
  intros [= E]. apply Forall2_length in Hl.
  unfold Bubble.isDouble in Hv. rewrite <- E in Hl. cbn in Hl.
  rewrite Hl in Hv. done.
Qed.

Lemma C1_broadcast_pushes_a_boxed_array_witness :
  interpreter_step [11] ∅ 11 0 0
    {| abyss := [Bub (Bubble.mk [VNum 10]); Bub (Bubble.mk [VNum 2; VNum 3])];
       stdin := ArrayReader.new []; stdout := [] |}
  = (Ok 1%nat, 1,
     {| abyss := [Bub (Bubble.mk [VArr [VNum 12; VNum 13]])];
        stdin := ArrayReader.new []; stdout := [] |})
  /\ Bubble.size (Bubble.mk [VArr [VNum 12; VNum 13]]) = 0%nat.
Proof.
  destruct (C1_broadcast_pushes_a_boxed_array [11] ∅ 0%nat 11 0 OPCODES.DD4 js_add
              (Bubble.mk [VNum 2; VNum 3]) (Bubble.mk [VNum 10])
              [VNum 12; VNum 13] [] (ArrayReader.new []) [])
    as (H1 & _ & _ & H2 & _).
  - left. split; reflexivity.
  - reflexivity.
  - reflexivity.
  - reflexivity.
  - reflexivity.
  - repeat constructor.
  - split; [exact H1|exact H2].
Defined.

(** The same on a whole program: BLO 2, BLO 3, SRN 2, BLO 10, 4DD, CNT.
    The sum of the double bubble (2, 3) and 10 is counted as of size 0,
    where the double bubble (12, 13) has size 2. *)
Example broadcast_then_count :
  parser "awa awa awawa awawa awa awa awa awa awa awawa awa awa awawa awawa awa awa awa awa awa awawawa awawa awa awawa awa awa awa awa awa awawa awa awa awawa awawa awa awa awa awawa awawa awa awawa awawawa awawawawawa"
  = Ok [5; 2; 5; 3; 9; 2; 5; 10; 11; 15]
  /\ fst (interpreter [5; 2; 5; 3; 9; 2; 5; 10; 11; 15] AWA5.new) = Ok (VNum 0)
  /\ fst (interpreter [5; 2; 5; 3; 9; 2; 15] AWA5.new) = Ok (VNum 2).
Proof. vm_compute. done. Qed.

(** C2 (the code departs from the claim).  The claim asks that MRG on two
    single bubbles, [b1] on top of [b2], push the double bubble made of
    the value of [b2] and the value of [b1].  The code pops both and then
    assigns to the [const] variable [bubble]: the turn ends in a
    [TypeError], the two bubbles are gone and nothing is pushed. *)
Theorem C2_merge_of_two_scalars_throws
    tokens labels cursor token executed (b1 b2 : Bubble.t) rest r w :
  OPCODES.get token = OPCODES.MRG ->
  Bubble.isDouble b1 = false ->
  Bubble.isDouble b2 = false ->
  interpreter_step tokens labels token cursor executed
    {| abyss := rest ++ [Bub b2; Bub b1]; stdin := r; stdout := w |}
  = (Throw (TypeError "Assignment to constant variable."), executed,
     {| abyss := rest; stdin := r; stdout := w |}).
Proof.
  intros Hc H1 H2. apply interpreter_step_throw.
  rewrite Hc, (dispatch_two_popped _ _ _ _ _ Abysser.merge) by tauto.
  unfold Abysser.merge. cbn [deref mbind outcome_bind]. rewrite H1, H2. done.
Qed.

Lemma C2_merge_of_two_scalars_throws_witness :
  interpreter_step [10] ∅ 10 0 0
    {| abyss := [Bub (Bubble.mk [VNum 7]); Bub (Bubble.mk [VNum 3])];
       stdin := ArrayReader.new []; stdout := [] |}
  = (Throw (TypeError "Assignment to constant variable."), 0,
     {| abyss := []; stdin := ArrayReader.new []; stdout := [] |}).
Proof.
  apply (C2_merge_of_two_scalars_throws [10] ∅ 0%nat 10 0
           (Bubble.mk [VNum 3]) (Bubble.mk [VNum 7]) [] (ArrayReader.new []) []);
    reflexivity.
Defined.

(** The same on a whole program: BLO 7, BLO 3, MRG. *)
Example merge_program_fails :
  parser "awa awa awawa awawa awa awa awa awa awawawawa awa awawa awawa awa awa awa awa awa awawawa awawa awawa awa"
  = Ok [5; 7; 5; 3; 10]
  /\ interpreter [5; 7; 5; 3; 10] AWA5.new
     = (Throw (TypeError "Assignment to constant variable."), AWA5.new).
Proof. vm_compute. done. Qed.

(** C3 (the code departs from the claim).  The claim asks that DIV on two
    single bubbles push the pair of the remainder and the truncated
    quotient.  The code pops both and then reads the undeclared variable
    [bv1]: the turn ends in a [ReferenceError] and nothing is pushed.
    ([bubblediv_pair] shows that the helper the branch fails to reach
    computes the pair of the claim.) *)
Theorem C3_div_of_two_scalars_throws
    tokens labels cursor token executed (b1 b2 : Bubble.t) (x y : Z) rest r w :
  OPCODES.get token = OPCODES.DIV ->
  scalar_of b1 x ->
  scalar_of b2 y ->
  y <> 0 ->
  interpreter_step tokens labels token cursor executed
    {| abyss := rest ++ [Bub b2; Bub b1]; stdin := r; stdout := w |}
  = (Throw (ReferenceError "bv1 is not defined"), executed,
     {| abyss := rest; stdin := r; stdout := w |}).
Proof.
  intros Hc H1 H2 _. apply interpreter_step_throw.
  rewrite Hc, (dispatch_two_popped _ _ _ _ _ Arith.div) by tauto.
  unfold Arith.div. cbn [deref mbind outcome_bind].
  rewrite (scalar_of_single _ _ H1), (scalar_of_single _ _ H2). done.
Qed.

Lemma C3_div_of_two_scalars_throws_witness :
  interpreter_step [14] ∅ 14 0 0
    {| abyss := [Bub (Bubble.mk [VNum 3]); Bub (Bubble.mk [VNum 7])];
       stdin := ArrayReader.new []; stdout := [] |}
  = (Throw (ReferenceError "bv1 is not defined"), 0,
     {| abyss := []; stdin := ArrayReader.new []; stdout := [] |}).
Proof.
  apply (C3_div_of_two_scalars_throws [14] ∅ 0%nat 14 0
           (Bubble.mk [VNum 7]) (Bubble.mk [VNum 3]) 7 3 [] (ArrayReader.new []) []).
  - reflexivity.
  - left. reflexivity.
  - left. reflexivity.
  - discriminate.
Defined.

(** The same on a whole program: BLO 3, BLO 7, DIV. *)
Example div_program_fails :
  parser "awa awa awawa awawa awa awa awa awa awa awawawa awa awawa awawa awa awa awa awa awawawawa awawawawa awa"
  = Ok [5; 3; 5; 7; 14]
  /\ interpreter [5; 3; 5; 7; 14] AWA5.new
     = (Throw (ReferenceError "bv1 is not defined"), AWA5.new).
Proof. vm_compute. done. Qed.

(** C4.  [Comparator.greater] answers what [Comparator.less] answers, on
    bubbles and on any pair of slots: [false] as soon as one bubble is a
    double bubble, otherwise the test [<] from the value of [b1] to the
    value of [b2]; on two single bubbles holding the integers [x] and [y]
    that is [x < y], for both. *)
Theorem C4_greater_is_less (b1 b2 : Bubble.t) :
  (forall s1 s2 : slot, Comparator.greater s1 s2 = Comparator.less s1 s2)
  /\ Comparator.greater (Bub b1) (Bub b2) = Comparator.less (Bub b1) (Bub b2)
  /\ Comparator.less (Bub b1) (Bub b2)
     = (if Bubble.isDouble b1 || Bubble.isDouble b2 then Ok false
        else js_lt (Bubble.value b1) (Bubble.value b2))
  /\ (forall x y, scalar_of b1 x -> scalar_of b2 y ->
        Comparator.less (Bub b1) (Bub b2) = Ok (x <? y)
        /\ Comparator.greater (Bub b1) (Bub b2) = Ok (x <? y)).
Proof.
  assert (Comparator.less (Bub b1) (Bub b2)
          = (if Bubble.isDouble b1 || Bubble.isDouble b2 then Ok false
             else js_lt (Bubble.value b1) (Bubble.value b2))) as E.
  { unfold Comparator.less. cbn [deref mbind outcome_bind].
    destruct (Bubble.isDouble b1), (Bubble.isDouble b2); done. }
  split; [done|]. split; [done|]. split; [exact E|].
  intros x y H1 H2.
  change (Comparator.greater (Bub b1) (Bub b2)) with (Comparator.less (Bub b1) (Bub b2)).
  rewrite E, (scalar_of_single _ _ H1), (scalar_of_single _ _ H2),
    (scalar_of_value _ _ H1), (scalar_of_value _ _ H2). done.
Qed.

Lemma C4_greater_is_less_witness :
  Comparator.less (Bub (Bubble.mk [VNum 3])) (Bub (Bubble.mk [VNum 5])) = Ok true
  /\ Comparator.greater (Bub (Bubble.mk [VNum 3])) (Bub (Bubble.mk [VNum 5])) = Ok true.
Proof.
  destruct (C4_greater_is_less (Bubble.mk [VNum 3]) (Bubble.mk [VNum 5]))
    as (_ & _ & _ & H).
  apply (H 3 5); left; reflexivity.
Defined.

(** The program LBL k, JMP k: its label table, and its two kinds of
    turns. *)
Lemma jump_to_itself_labels (k : Z) :
  register_labels 0 [OPCODES.LBL; k; OPCODES.JMP; k] ∅ = Ok (<[k := 1%nat]> ∅).
Proof. reflexivity. Qed.

Lemma jump_to_itself_first_turn (k : Z) labels executed m :
  executed + 1 < oplimit ->
  interpreter_step [OPCODES.LBL; k; OPCODES.JMP; k] labels OPCODES.LBL 0 executed m
  = (Ok 2%nat, executed + 1, m).
Proof.
  intros He. erewrite interpreter_step_ok by reflexivity.
  destruct (Z.leb_spec oplimit (executed + 1)); [lia|done].
Qed.

Lemma jump_to_itself_turn (k : Z) executed m :
  interpreter_step [OPCODES.LBL; k; OPCODES.JMP; k] (<[k := 1%nat]> ∅) OPCODES.JMP 2 executed m
  = if oplimit <=? executed + 1
    then (Throw (LimitError "too many operations"), executed + 1, m)
    else (Ok 2%nat, executed + 1, m).
Proof.
  apply (interpreter_step_ok _ _ _ _ _ _ 1%nat Null m).
  change (OPCODES.get OPCODES.JMP) with 17.
  cbv beta iota delta [dispatch]. unfold m_bind, argument, m_ret.
  cbn [lookup list_lookup Nat.add].
  unfold jump_if. rewrite lookup_insert_eq. done.
Qed.

(** From the jump on, the loop turns on the spot until the counter reaches
    the limit: with enough fuel it ends there, with less it has not ended. *)
Lemma jump_to_itself_loop (k : Z) m : forall fuel executed,
  0 <= executed < oplimit ->
  interpreter_loop [OPCODES.LBL; k; OPCODES.JMP; k] (<[k := 1%nat]> ∅) fuel 2 executed m
  = if oplimit - executed <=? Z.of_nat fuel
    then Some (Throw (LimitError "too many operations"), oplimit, m)
    else None.
Proof.
  induction fuel as [|fuel IH]; intros executed He.
  - cbn [interpreter_loop].
    change ([OPCODES.LBL; k; OPCODES.JMP; k] !! 2%nat) with (Some OPCODES.JMP).
    cbv beta iota. leb_cases; [lia|done].
  - cbn [interpreter_loop].
    change ([OPCODES.LBL; k; OPCODES.JMP; k] !! 2%nat) with (Some OPCODES.JMP).
    cbv beta iota. rewrite jump_to_itself_turn.
    destruct (Z.leb_spec oplimit (executed + 1)).
    + leb_cases; [|lia]. do 3 f_equal. lia.
    + rewrite IH by lia. leb_cases; done || lia.
Qed.

(** C5.  The program that defines a label and jumps to it, for any label
    number [k] and from any machine, ends in the limit error when the
    counter of executed operations is exactly 10000; the machine is as it
    was.  Not earlier: with fewer than 10000 turns the loop has not
    ended. *)
Theorem C5_jump_to_itself_hits_the_limit (k : Z) (m : machine) :
  interpreter_run [OPCODES.LBL; k; OPCODES.JMP; k] m
  = Some (Throw (LimitError "too many operations"), 10000, m)
  /\ interpreter [OPCODES.LBL; k; OPCODES.JMP; k] m
     = (Throw (LimitError "too many operations"), m)
  /\ (forall fuel : nat,
        Z.of_nat fuel < 10000 ->
        interpreter_loop [OPCODES.LBL; k; OPCODES.JMP; k] (<[k := 1%nat]> ∅) fuel 0 0 m
        = None).
Proof.
  assert (forall n, interpreter_loop [OPCODES.LBL; k; OPCODES.JMP; k] (<[k := 1%nat]> ∅) (S n) 0 0 m
                    = if oplimit - 1 <=? Z.of_nat n
                      then Some (Throw (LimitError "too many operations"), oplimit, m)
                      else None) as Hloop.
  { intros n. cbn [interpreter_loop].
    change ([OPCODES.LBL; k; OPCODES.JMP; k] !! 0%nat) with (Some OPCODES.LBL).
    cbv beta iota. rewrite jump_to_itself_first_turn by (unfold oplimit; lia).
    apply jump_to_itself_loop. unfold oplimit. lia. }
  assert (interpreter_run [OPCODES.LBL; k; OPCODES.JMP; k] m
          = Some (Throw (LimitError "too many operations"), 10000, m)) as Hrun.
  { unfold interpreter_run. rewrite jump_to_itself_labels.
    replace (Z.to_nat oplimit) with (S (Z.to_nat (oplimit - 1)))
      by (unfold oplimit; lia).
    rewrite Hloop. leb_cases; [done|].
    unfold oplimit in *. lia. }
  split; [exact Hrun|]. split.
  - unfold interpreter. rewrite Hrun. done.
  - intros fuel Hf. destruct fuel as [|n]; [done|]. rewrite Hloop.
    leb_cases; [unfold oplimit in *; lia|done].
Qed.

Lemma C5_jump_to_itself_hits_the_limit_witness :
  interpreter_run [16; 1; 17; 1] AWA5.new
  = Some (Throw (LimitError "too many operations"), 10000, AWA5.new)
  /\ interpreter_loop [16; 1; 17; 1] (<[1 := 1%nat]> ∅) 9 0 0 AWA5.new = None.
Proof.
  destruct (C5_jump_to_itself_hits_the_limit 1 AWA5.new) as (H1 & _ & H2).
  split; [exact H1|]. apply (H2 9%nat). lia.
Defined.

(** The same from the source text of LBL 1, JMP 1: [run] reports the limit
    error and returns 1. *)
Example jump_to_itself_text :
  parser "awawa awa awa awa awa awa awa awa awa awa awa awawawa awa awa awawa awa awa awa awa awa awa awawa"
  = Ok [16; 1; 17; 1]
  /\ AWA5.run "awawa awa awa awa awa awa awa awa awa awa awa awawawa awa awa awawa awa awa awa awa awa awa awawa" AWA5.new
     = (Ok (VNum 1),
        {| abyss := []; stdin := ArrayReader.new [];
           stdout := [WError (LimitError "too many operations")] |}).
Proof. vm_compute. done. Qed.

(** C7.  JMP with its argument [a] present and no label registered under
    [a]: the opcode raises nothing and touches nothing, it only steps over
    its argument.  The turn therefore leaves the cursor two tokens further,
    on the next instruction, the machine unchanged, and the loop goes on
    from there.  (The operation counts like any other: as the 10000th of
    the run it ends in the limit error, which is the budget's doing.) *)
Theorem C7_jump_to_unregistered_label_falls_through
    tokens labels cursor token a executed m :
  OPCODES.get token = OPCODES.JMP ->
  tokens !! (cursor + 1)%nat = Some a ->
  labels !! a = None ->
  dispatch tokens labels cursor token (OPCODES.get token) m
  = (Ok ((cursor + 1)%nat, Null), m)
  /\ interpreter_step tokens labels token cursor executed m
     = (if oplimit <=? executed + 1
        then (Throw (LimitError "too many operations"), executed + 1, m)
        else (Ok (cursor + 2)%nat, executed + 1, m))
  /\ (executed + 1 < oplimit ->
      tokens !! cursor = Some token ->
      forall fuel,
        interpreter_loop tokens labels (S fuel) cursor executed m
        = interpreter_loop tokens labels fuel (cursor + 2) (executed + 1) m).
Proof.
  intros Hc Ha Hl.
  assert (dispatch tokens labels cursor token (OPCODES.get token) m
          = (Ok ((cursor + 1)%nat, Null), m)) as Hd.
  { rewrite Hc. cbv beta iota delta [dispatch OPCODES.JMP].
    unfold m_bind, argument, m_ret. rewrite Ha. unfold jump_if. rewrite Hl. done. }
  assert (interpreter_step tokens labels token cursor executed m
          = (if oplimit <=? executed + 1
             then (Throw (LimitError "too many operations"), executed + 1, m)
             else (Ok (cursor + 2)%nat, executed + 1, m))) as Hs.
  { rewrite (interpreter_step_ok _ _ _ _ _ _ _ _ _ Hd). cbn [push_result m_ret snd].
    replace (cursor + 1 + 1)%nat with (cursor + 2)%nat by lia. done. }
  split; [exact Hd|]. split; [exact Hs|].
  intros He Ht fuel. cbn [interpreter_loop]. rewrite Ht, Hs.
  leb_cases; [lia|done].
Qed.

Lemma C7_jump_to_unregistered_label_falls_through_witness :
  dispatch [17; 9; 5; 4] ∅ 0 17 (OPCODES.get 17) AWA5.new
  = (Ok (1%nat, Null), AWA5.new)
  /\ interpreter_step [17; 9; 5; 4] ∅ 17 0 0 AWA5.new = (Ok 2%nat, 1, AWA5.new).
Proof.
  destruct (C7_jump_to_unregistered_label_falls_through
              [17; 9; 5; 4] ∅ 0%nat 17 9 0 AWA5.new)
    as (H1 & H2 & _); [reflexivity..|].
  split; [exact H1|exact H2].
Defined.

(** The same on a whole program: JMP 9, BLO 4 returns 4. *)
Example jump_to_unregistered_label_program :
  interpreter [17; 9; 5; 4] AWA5.new = (Ok (VNum 4), AWA5.new).
Proof. vm_compute. done. Qed.

(** Computations that only look at the machine. *)
Lemma preserves_ret {A} (a : A) : preserves (m_ret a).
Proof. done. Qed.

Lemma preserves_throw {A} (e : error) : preserves (@m_throw A e).
Proof. done. Qed.

Lemma preserves_lift {A} (o : outcome A) : preserves (m_lift o).
Proof. done. Qed.

Lemma preserves_bind {A B} (c : M A) (k : A -> M B) :
  preserves c -> (forall a, preserves (k a)) -> preserves (m_bind c k).
Proof.
  intros Hc Hk m. unfold m_bind. specialize (Hc m).
  destruct (c m) as [[a| |] m1]; cbn in Hc; subst; [apply Hk|done..].
Qed.

Lemma preserves_argument tokens cursor token : preserves (argument tokens cursor token).
Proof. unfold argument. destruct (tokens !! _); done. Qed.

Lemma preserves_need_bubbles n token : preserves (need_bubbles n token).
Proof.
  apply preserves_bind; [done|]. intros len.
  destruct (Z.of_nat len <? n); done.
Qed.

Lemma preserves_peek k : preserves (abyss_peek k).
Proof. done. Qed.

Create HintDb preserves.
#[local] Hint Resolve preserves_ret preserves_throw preserves_lift preserves_argument
  preserves_need_bubbles preserves_peek : preserves.

(** The four conditional jumps only look at the machine. *)
Lemma conditional_jump_preserves tokens labels cursor token code :
  code = OPCODES.EQL \/ code = OPCODES.LSS \/ code = OPCODES.GR8 \/ code = OPCODES.EQZ ->
  preserves (dispatch tokens labels cursor token code).
Proof.
  intros [-> | [-> | [-> | ->]]];
    cbv beta iota delta [dispatch OPCODES.EQL OPCODES.LSS OPCODES.GR8 OPCODES.EQZ];
    repeat (apply preserves_bind; [auto with preserves|intros ?]);
    auto with preserves.
Qed.

(** What they answer: a cursor and nothing to push. *)
Lemma conditional_jump_result tokens labels cursor token code m c r m' :
  code = OPCODES.EQL \/ code = OPCODES.LSS \/ code = OPCODES.GR8 \/ code = OPCODES.EQZ ->
  dispatch tokens labels cursor token code m = (Ok (c, r), m') ->
  r = Null
  /\ exists a, tokens !! (cursor + 1)%nat = Some a
       /\ (c = (cursor + 1)%nat \/ labels !! a = Some c).
Proof.
  intros [-> | [-> | [-> | ->]]];
    cbv beta iota delta [dispatch OPCODES.EQL OPCODES.LSS OPCODES.GR8 OPCODES.EQZ];
    intros H;
    apply m_bind_inv in H as (a & m1 & Ha & H);
    repeat (apply m_bind_inv in H as (? & ? & _ & H));
    injection H as <- <- <-;
    (split; [done|]); exists a;
    (split; [by eapply argument_inv|]);
    unfold jump_if; repeat case_match; auto.
Qed.

Lemma abyss_peek_top m rest s2 s1 :
  abyss m = rest ++ [s2; s1] ->
  abyss_peek 1 m = (Ok s1, m) /\ abyss_peek 2 m = (Ok s2, m).
Proof.
  intros H. unfold abyss_peek. rewrite H, length_app. cbn [List.length].
  split; do 2 f_equal.
  - rewrite lookup_app_r by lia.
    replace (List.length rest + 2 - 1 - List.length rest)%nat with 1%nat by lia. done.
  - rewrite lookup_app_r by lia.
    replace (List.length rest + 2 - 2 - List.length rest)%nat with 0%nat by lia. done.
Qed.

(** With their argument present and two single integer bubbles on top, the
    conditional jumps complete: they jump or fall through by their test. *)
Lemma conditional_jump_on_integers tokens labels cursor token code m a b1 b2 x y rest :
  code = OPCODES.EQL \/ code = OPCODES.LSS \/ code = OPCODES.GR8 \/ code = OPCODES.EQZ ->
  tokens !! (cursor + 1)%nat = Some a ->
  abyss m = rest ++ [Bub b2; Bub b1] ->
  scalar_of b1 x ->
  scalar_of b2 y ->
  dispatch tokens labels cursor token code m
  = (Ok (jump_if labels (integer_test code x y) cursor a, Null), m).
Proof.
  intros Hc Ha Hm H1 H2.
  destruct (abyss_peek_top m rest _ _ Hm) as [P1 P2].
  assert (forall n, n <= 2 -> need_bubbles n token m = (Ok tt, m)) as Hn.
  { intros n Hn. apply need_bubbles_enough. rewrite Hm, length_app. cbn. lia. }
  pose proof (scalar_of_single _ _ H1) as D1. pose proof (scalar_of_single _ _ H2) as D2.
  pose proof (scalar_of_value _ _ H1) as V1. pose proof (scalar_of_value _ _ H2) as V2.
  destruct Hc as [-> | [-> | [-> | ->]]];
    cbv beta iota delta [dispatch OPCODES.EQL OPCODES.LSS OPCODES.GR8 OPCODES.EQZ];
    unfold m_bind at 1; unfold argument; rewrite Ha; unfold m_ret at 1;
    unfold m_bind at 1; rewrite Hn by lia;
    unfold m_bind at 1; rewrite P1;
    try (unfold m_bind at 1; rewrite P2);
    unfold m_bind, m_lift, m_ret;
    unfold Comparator.equal, Comparator.less, Comparator.greater, Comparator.zero;
    cbn [deref mbind outcome_bind];
    rewrite ?D1, ?D2, ?V1, ?V2; done.
Qed.

(** C8.  The conditional jumps EQL, LSS, GR8 and EQZ only look at the top of
    the abyss.  Whatever the machine and whatever the outcome, the machine
    after the opcode, and after the whole turn, is the machine before it:
    the abyss has the same depth and the same bubbles.  When the opcode
    completes it hands nothing back to be pushed.  And with the argument
    present and two single integer bubbles on top it does complete,
    jumping or falling through by its test. *)
Theorem C8_conditional_jumps_leave_the_abyss
    tokens labels cursor token executed m :
  OPCODES.get token = OPCODES.EQL \/ OPCODES.get token = OPCODES.LSS
    \/ OPCODES.get token = OPCODES.GR8 \/ OPCODES.get token = OPCODES.EQZ ->
  snd (dispatch tokens labels cursor token (OPCODES.get token) m) = m
  /\ (forall c r m',
        dispatch tokens labels cursor token (OPCODES.get token) m = (Ok (c, r), m') ->
        r = Null /\ abyss m' = abyss m)
  /\ snd (interpreter_step tokens labels token cursor executed m) = m
  /\ (forall a b1 b2 x y rest,
        tokens !! (cursor + 1)%nat = Some a ->
        abyss m = rest ++ [Bub b2; Bub b1] ->
        scalar_of b1 x ->
        scalar_of b2 y ->
        dispatch tokens labels cursor token (OPCODES.get token) m
        = (Ok (jump_if labels (integer_test (OPCODES.get token) x y) cursor a, Null), m)).
Proof.
  intros Hc.
  pose proof (conditional_jump_preserves tokens labels cursor token _ Hc m) as Hp.
  split; [exact Hp|]. split; [|split].
  - intros c r m' E. rewrite E in Hp. cbn in Hp. subst m'.
    apply conditional_jump_result in E as [-> _]; done.
  - unfold interpreter_step, m_bind at 1.
    destruct (dispatch tokens labels cursor token (OPCODES.get token) m)
      as [[[c r]| |] m1] eqn:E; cbn in Hp; subst m1; [|done..].
    apply conditional_jump_result in E as [-> _]; [|done].
    cbn. by destruct (oplimit <=? executed + 1).
  - intros a b1 b2 x y rest. by apply conditional_jump_on_integers.
Qed.

Lemma C8_conditional_jumps_leave_the_abyss_witness :
  snd (interpreter_step [18; 6; 0; 16; 6] (<[6 := 4%nat]> ∅) 18 0 0
         {| abyss := [Bub (Bubble.mk [VNum 4]); Bub (Bubble.mk [VNum 4])];
            stdin := ArrayReader.new []; stdout := [] |})
  = {| abyss := [Bub (Bubble.mk [VNum 4]); Bub (Bubble.mk [VNum 4])];
       stdin := ArrayReader.new []; stdout := [] |}
  /\ dispatch [18; 6; 0; 16; 6] (<[6 := 4%nat]> ∅) 0 18 (OPCODES.get 18)
       {| abyss := [Bub (Bubble.mk [VNum 4]); Bub (Bubble.mk [VNum 4])];
          stdin := ArrayReader.new []; stdout := [] |}
     = (Ok (4%nat, Null),
        {| abyss := [Bub (Bubble.mk [VNum 4]); Bub (Bubble.mk [VNum 4])];
           stdin := ArrayReader.new []; stdout := [] |}).
Proof.
  destruct (C8_conditional_jumps_leave_the_abyss
              [18; 6; 0; 16; 6] (<[6 := 4%nat]> ∅) 0%nat 18 0
              {| abyss := [Bub (Bubble.mk [VNum 4]); Bub (Bubble.mk [VNum 4])];
                 stdin := ArrayReader.new []; stdout := [] |})
    as (_ & _ & H3 & H4); [left; reflexivity|].
  split; [exact H3|].
  exact (H4 6 (Bubble.mk [VNum 4]) (Bubble.mk [VNum 4]) 4 4 [] eq_refl eq_refl
            (or_introl eq_refl) (or_introl eq_refl)).
Defined.

(** On whole programs: BLO 4, BLO 4, then EQL 6 (taken) or LSS 6 (not
    taken), NOP, LBL 6.  The run returns the top bubble, still 4. *)
Example conditional_jump_programs :
  interpreter [5; 4; 5; 4; 18; 6; 0; 16; 6] AWA5.new = (Ok (VNum 4), AWA5.new)
  /\ interpreter [5; 4; 5; 4; 19; 6; 0; 16; 6] AWA5.new = (Ok (VNum 4), AWA5.new).
Proof. vm_compute. done. Qed.

(** C10.  A run of the interpreter that returns has gone through the loop
    with at most 9999 operations counted.  A turn that starts with 9999
    operations counted and whose opcode completes, wherever it leaves the
    cursor, ends in the limit error with 10000 counted: the test on the
    counter comes before the loop condition is looked at again. *)
Theorem C10_normal_return_within_budget tokens m v m' :
  interpreter tokens m = (Ok v, m') ->
  (exists n m1,
      interpreter_run tokens m = Some (Ok tt, n, m1)
      /\ 0 <= n <= 9999
      /\ interpreter_finish m1 = (Ok v, m'))
  /\ (forall labels token cursor m0 c r m1,
        dispatch tokens labels cursor token (OPCODES.get token) m0 = (Ok (c, r), m1) ->
        interpreter_step tokens labels token cursor 9999 m0
        = (Throw (LimitError "too many operations"), 10000, snd (push_result r m1))
        /\ (tokens !! cursor = Some token ->
            forall fuel,
              interpreter_loop tokens labels (S fuel) cursor 9999 m0
              = Some (Throw (LimitError "too many operations"), 10000,
                      snd (push_result r m1)))).
Proof.
  intros H. split.
  - unfold interpreter in H.
    destruct (interpreter_run tokens m) as [[[[[]| |] n] m1]|] eqn:E; [|done..].
    exists n, m1. split; [done|]. split; [|done].
    unfold interpreter_run in E.
    destruct (register_labels 0 tokens ∅) as [labels| |]; [|done..].
    apply interpreter_loop_counts in E as [E1 E2]; [|done].
    specialize (E2 eq_refl). unfold oplimit in *. lia.
  - intros labels token cursor m0 c r m1 Hd.
    assert (interpreter_step tokens labels token cursor 9999 m0
            = (Throw (LimitError "too many operations"), 10000, snd (push_result r m1)))
      as Hs by (rewrite (interpreter_step_ok _ _ _ _ _ _ _ _ _ Hd); done).
    split; [exact Hs|]. intros Ht fuel. cbn [interpreter_loop]. rewrite Ht, Hs. done.
Qed.

Lemma C10_normal_return_within_budget_witness :
  exists n m1,
    interpreter_run [5; 4] AWA5.new = Some (Ok tt, n, m1)
    /\ 0 <= n <= 9999
    /\ interpreter_finish m1 = (Ok (VNum 4), AWA5.new).
Proof.
  exact (proj1 (C10_normal_return_within_budget [5; 4] AWA5.new (VNum 4) AWA5.new
                  eq_refl)).
Defined.

(** On whole programs: 9999 NOP return 0; 10000 NOP, or 9999 NOP and TRM,
    would end by themselves after their 10000th operation and end in the
    limit error instead. *)
Example budget_programs :
  interpreter (replicate (Z.to_nat 9999) OPCODES.NOP) AWA5.new = (Ok (VNum 0), AWA5.new)
  /\ interpreter_run (replicate (Z.to_nat 10000) OPCODES.NOP) AWA5.new
     = Some (Throw (LimitError "too many operations"), 10000, AWA5.new)
  /\ interpreter_run (replicate (Z.to_nat 9999) OPCODES.NOP ++ [OPCODES.TRM]) AWA5.new
     = Some (Throw (LimitError "too many operations"), 10000, AWA5.new).
Proof. vm_compute. done. Qed.

(** What [run] leaves of the abyss: nothing after a run that returns,
    everything the interpreter left after a run that fails. *)
Lemma run_success_clears input tokens m v m1 :
  parser input = Ok tokens ->
  interpreter tokens m = (Ok v, m1) ->
  fst (AWA5.run input m) = Ok v /\ abyss (snd (AWA5.run input m)) = [].
Proof.
  intros Hp Hi. unfold AWA5.run. rewrite Hp, Hi. cbn.
  split; [done|]. by eapply interpreter_ok_clears.
Qed.

Lemma run_failure_keeps input tokens m e m1 :
  parser input = Ok tokens ->
  interpreter tokens m = (Throw e, m1) ->
  AWA5.run input m
  = (Ok (VNum 1),
     {| abyss := abyss m1; stdin := stdin m1; stdout := stdout m1 ++ [WError e] |}).
Proof.
  intros Hp Hi. unfold AWA5.run. rewrite Hp, Hi. done.
Qed.

(** C6 (the code departs from the claim).  The claim asks that the abyss be
    empty after every run, failed ones too.  The abyss is emptied on the
    path that returns only.  The program BLO 2, MRG fails for want of a
    second bubble and leaves the bubble 2 in the abyss; the empty program
    run next on the same interpreter returns that 2, where it returns 0 on
    a new interpreter. *)
Theorem C6_failed_run_keeps_its_bubbles :
  AWA5.run "awa awa awawa awawa awa awa awa awa awa awawa awa awawa awawa awa" AWA5.new
  = (Ok (VNum 1),
     {| abyss := [Bub (Bubble.mk [VNum 2])]; stdin := ArrayReader.new [];
        stdout := [WError (OpcodeError 10 "not enough bubbles")] |})
  /\ AWA5.run "awa"
       {| abyss := [Bub (Bubble.mk [VNum 2])]; stdin := ArrayReader.new [];
          stdout := [WError (OpcodeError 10 "not enough bubbles")] |}
     = (Ok (VNum 2),
        {| abyss := []; stdin := ArrayReader.new [];
           stdout := [WError (OpcodeError 10 "not enough bubbles")] |})
  /\ AWA5.run "awa" AWA5.new = (Ok (VNum 0), AWA5.new).
Proof. vm_compute. done. Qed.

(** * Further properties *)

(** ** The opcode table *)

(** X1.  The opcode of a token is the token modulo 32, for negative tokens
    too: it lies in 0..31, tokens 32 apart have the same opcode, a token in
    0..31 is its own opcode, and the all-ones token -1 is TRM. *)
Theorem X1_opcode_is_token_modulo_32 (token : Z) :
  OPCODES.get token = token mod 32
  /\ 0 <= OPCODES.get token < 32
  /\ OPCODES.get (token + 32) = OPCODES.get token
  /\ OPCODES.get (OPCODES.get token) = OPCODES.get token
  /\ OPCODES.get (-1) = OPCODES.TRM.
Proof.
  assert (forall t, OPCODES.get t = t mod 32) as E.
  { intros t. unfold OPCODES.get. apply Z.mod_mod_divide. exists (2 ^ 27). done. }
  split; [apply E|]. rewrite !E.
  split; [apply Z.mod_pos_bound; lia|].
  split; [|split; [|done]].
  - replace (token + 32) with (token + 1 * 32) by lia. apply Z.mod_add. lia.
  - apply Z.mod_mod. lia.
Qed.

(** ** Errors of the dispatch *)

(** X2.  An opcode that reads an argument (BLO, SBM, SRN, JMP, EQL, LSS,
    GR8, EQZ) and has no token after it ends the turn in the "not enough
    arguments" error, carrying the token, before it touches the machine. *)
Theorem X2_missing_argument tokens labels cursor token executed m :
  OPCODES.get token ∈ [OPCODES.BLO; OPCODES.SBM; OPCODES.SRN; OPCODES.JMP;
                       OPCODES.EQL; OPCODES.LSS; OPCODES.GR8; OPCODES.EQZ] ->
  tokens !! (cursor + 1)%nat = None ->
  interpreter_step tokens labels token cursor executed m
  = (Throw (OpcodeError token "not enough arguments"), executed, m).
Proof.
  intros Hc Ha. apply interpreter_step_throw.
  assert (argument tokens cursor token m
          = (Throw (OpcodeError token "not enough arguments"), m)) as E
    by (unfold argument; rewrite Ha; done).
  set_unfold in Hc.
  destruct Hc as [-> | [-> | [-> | [-> | [-> | [-> | [-> | [-> | []]]]]]]]];
    cbv beta iota delta [dispatch OPCODES.BLO OPCODES.SBM OPCODES.SRN OPCODES.JMP
                          OPCODES.EQL OPCODES.LSS OPCODES.GR8 OPCODES.EQZ];
    apply m_bind_throw, E.
Qed.

Lemma X2_missing_argument_witness :
  interpreter_step [0; 5] ∅ 5 1 0 AWA5.new
  = (Throw (OpcodeError 5 "not enough arguments"), 0, AWA5.new).
Proof.
  apply (X2_missing_argument [0; 5] ∅ 1%nat 5 0 AWA5.new); [|reflexivity].
  apply list_elem_of_here.
Defined.

(** X3.  An opcode that takes bubbles it does not find ends the turn in the
    "not enough bubbles" error before it touches the machine: PRN, PR1,
    POP, DPL and CNT on an empty abyss; MRG, 4DD, SUB, MUL and DIV on
    fewer than two bubbles. *)
Theorem X3_not_enough_bubbles tokens labels cursor token executed m :
  (OPCODES.get token ∈ [OPCODES.PRN; OPCODES.PR1; OPCODES.POP; OPCODES.DPL; OPCODES.CNT]
   /\ abyss m = [])
  \/ (OPCODES.get token ∈ [OPCODES.MRG; OPCODES.DD4; OPCODES.SUB; OPCODES.MUL; OPCODES.DIV]
      /\ (List.length (abyss m) < 2)%nat) ->
  interpreter_step tokens labels token cursor executed m
  = (Throw (OpcodeError token "not enough bubbles"), executed, m).
Proof.
  intros H. apply interpreter_step_throw.
  assert (forall n, Z.of_nat (List.length (abyss m)) < n ->
            need_bubbles n token m
            = (Throw (OpcodeError token "not enough bubbles"), m)) as E.
  { intros n Hn. unfold need_bubbles, m_bind, abyss_length.
    destruct (Z.ltb_spec (Z.of_nat (List.length (abyss m))) n); [done|lia]. }
  destruct H as [[Hc Hm]|[Hc Hm]]; set_unfold in Hc.
  - destruct Hc as [-> | [-> | [-> | [-> | [-> | []]]]]];
      cbv beta iota delta [dispatch OPCODES.PRN OPCODES.PR1 OPCODES.POP OPCODES.DPL
                            OPCODES.CNT];
      apply m_bind_throw, E; rewrite Hm; cbn; lia.
  - destruct Hc as [-> | [-> | [-> | [-> | [-> | []]]]]];
      cbv beta iota delta [dispatch OPCODES.MRG OPCODES.DD4 OPCODES.SUB OPCODES.MUL
                            OPCODES.DIV];
      apply m_bind_throw, E; lia.
Qed.

Lemma X3_not_enough_bubbles_witness :
  interpreter_step [11] ∅ 11 0 0
    {| abyss := [Bub (Bubble.mk [VNum 1])]; stdin := ArrayReader.new []; stdout := [] |}
  = (Throw (OpcodeError 11 "not enough bubbles"), 0,
     {| abyss := [Bub (Bubble.mk [VNum 1])]; stdin := ArrayReader.new []; stdout := [] |}).
Proof.
  apply (X3_not_enough_bubbles [11] ∅ 0%nat 11 0).
  right. split; [|cbn; lia].
  apply list_elem_of_further, list_elem_of_here.
Defined.

(** X4.  The nine opcodes 22..30 are not instructions: the turn ends in the
    "invalid opcode" error, carrying the token, and the machine is
    untouched. *)
Theorem X4_invalid_opcode tokens labels cursor token executed m :
  22 <= OPCODES.get token <= 30 ->
  interpreter_step tokens labels token cursor executed m
  = (Throw (OpcodeError token "invalid opcode"), executed, m).
Proof.
  intros H. apply interpreter_step_throw.
  assert (OPCODES.get token ∈ [22; 23; 24; 25; 26; 27; 28; 29; 30]) as Hc
    by (set_unfold; lia).
  set_unfold in Hc.
  destruct Hc as [-> | [-> | [-> | [-> | [-> | [-> | [-> | [-> | [-> | []]]]]]]]]]; done.
Qed.

Lemma X4_invalid_opcode_witness :
  interpreter_step [-10] ∅ (-10) 0 0 AWA5.new
  = (Throw (OpcodeError (-10) "invalid opcode"), 0, AWA5.new).
Proof.
  apply (X4_invalid_opcode [-10] ∅ 0%nat (-10) 0 AWA5.new).
  vm_compute. split; discriminate.
Defined.

(** X5.  TRM ends the run at once, whatever tokens follow it: the loop
    returns after that turn with the machine as it is. *)
Theorem X5_terminate_ends_the_loop tokens labels cursor token executed m fuel :
  OPCODES.get token = OPCODES.TRM ->
  tokens !! cursor = Some token ->
  executed + 1 < oplimit ->
  interpreter_loop tokens labels (S fuel) cursor executed m
  = Some (Ok tt, executed + 1, m).
Proof.
  intros Hc Ht He. cbn [interpreter_loop]. rewrite Ht.
  rewrite (interpreter_step_ok _ _ _ _ _ _ (List.length tokens) Null m)
    by (rewrite Hc; done).
  destruct (Z.leb_spec oplimit (executed + 1)); [lia|].
  cbn [push_result m_ret snd].
  assert (tokens !! (List.length tokens + 1)%nat = None) as E
    by (apply lookup_ge_None; lia).
  destruct fuel; cbn [interpreter_loop]; rewrite E; done.
Qed.

Lemma X5_terminate_ends_the_loop_witness :
  interpreter_loop [31; 5; 7; 22] ∅ 1 0 0 AWA5.new = Some (Ok tt, 1, AWA5.new).
Proof.
  apply (X5_terminate_ends_the_loop [31; 5; 7; 22] ∅ 0%nat 31 0 AWA5.new 0%nat);
    [reflexivity|reflexivity|unfold oplimit; lia].
Defined.

(** ** Bubbles *)

(** X6.  The size of a bubble is 0 when it is not a double bubble and the
    number of its values when it is; a bubble is a double bubble exactly
    when it has two values or more, so no bubble has size 1. *)
Theorem X6_size_of_a_bubble (b : Bubble.t) :
  Bubble.size b = (if Bubble.isDouble b then List.length (Bubble.backing b) else 0%nat)
  /\ (Bubble.isDouble b = true <-> (2 <= List.length (Bubble.backing b))%nat)
  /\ Bubble.size b <> 1%nat
  /\ (Bubble.size b = 0%nat <-> Bubble.isDouble b = false).
Proof.
  destruct b as [[|x [|y l]]]; unfold Bubble.size, Bubble.isDouble; cbn;
    repeat split; try done; lia.
Qed.

(** ** Arithmetic *)

(** X7.  On two single bubbles holding integers, [x] on top of [y], the
    opcodes 4DD, SUB and MUL replace both by one single bubble holding
    [x + y], [x - y] (top minus second) and [x * y], as long as the result
    is a safe integer. *)
Theorem X7_arithmetic_on_scalars
    tokens labels cursor token executed (b1 b2 : Bubble.t) (x y z : Z) rest r w :
  (OPCODES.get token = OPCODES.DD4 /\ z = x + y)
    \/ (OPCODES.get token = OPCODES.SUB /\ z = x - y)
    \/ (OPCODES.get token = OPCODES.MUL /\ z = x * y) ->
  scalar_of b1 x ->
  scalar_of b2 y ->
  Z.abs z <= max_safe ->
  executed + 1 < oplimit ->
  interpreter_step tokens labels token cursor executed
    {| abyss := rest ++ [Bub b2; Bub b1]; stdin := r; stdout := w |}
  = (Ok (cursor + 1)%nat, executed + 1,
     {| abyss := rest ++ [Bub (Bubble.mk [VNum z])]; stdin := r; stdout := w |}).
Proof.
  intros Hc H1 H2 Hz He.
  assert (exists f op, (OPCODES.get token = OPCODES.DD4 /\ f = Arith.add
                          \/ OPCODES.get token = OPCODES.SUB /\ f = Arith.sub
                          \/ OPCODES.get token = OPCODES.MUL /\ f = Arith.mul)
                       /\ f = Arith.elementwise op
                       /\ op (VNum x) (VNum y) = Ok (VNum z)) as (f & op & Hf & -> & Hop).
  { assert (js_number z = Ok (VNum z)) as Hn.
    { unfold js_number. destruct (Z.leb_spec (Z.abs z) max_safe); [done|lia]. }
    destruct Hc as [[Hc ->]|[[Hc ->]|[Hc ->]]].
    - exists Arith.add, js_add. tauto.
    - exists Arith.sub, js_sub. tauto.
    - exists Arith.mul, js_mul. tauto. }
  erewrite interpreter_step_ok; cycle 1.
  { rewrite (dispatch_two_popped _ _ _ _ _ (Arith.elementwise op)) by tauto.
    unfold Arith.elementwise. cbn [deref mbind outcome_bind].
    rewrite (scalar_of_single _ _ H1), (scalar_of_single _ _ H2),
      (scalar_of_value _ _ H1), (scalar_of_value _ _ H2). cbn [negb andb].
    rewrite Hop. done. }
  destruct (Z.leb_spec oplimit (executed + 1)); [lia|]. done.
Qed.

Lemma X7_arithmetic_on_scalars_witness :
  interpreter_step [12] ∅ 12 0 0
    {| abyss := [Bub (Bubble.mk [VNum 2]); Bub (Bubble.mk [VNum 7])];
       stdin := ArrayReader.new []; stdout := [] |}
  = (Ok 1%nat, 1,
     {| abyss := [Bub (Bubble.mk [VNum 5])]; stdin := ArrayReader.new []; stdout := [] |}).
Proof.
  apply (X7_arithmetic_on_scalars [12] ∅ 0%nat 12 0
           (Bubble.mk [VNum 7]) (Bubble.mk [VNum 2]) 7 2 5 [] (ArrayReader.new []) []).
  - right. left. split; reflexivity.
  - left. reflexivity.
  - left. reflexivity.
  - unfold max_safe. lia.
  - unfold oplimit. lia.
Defined.

(** The three operators on lists of integers, pair by pair. *)
Lemma mapM_zip_integers op (f : Z -> Z -> Z) :
  (forall x y, Z.abs (f x y) <= max_safe -> op (VNum x) (VNum y) = Ok (VNum (f x y))) ->
  forall l1 l2,
    Forall (fun z => Z.abs z <= max_safe) (zip_with f l1 l2) ->
    mapM (fun '(x, y) => op x y) (zip (List.map VNum l1) (List.map VNum l2))
    = Ok (List.map VNum (zip_with f l1 l2)).
Proof.
  intros Hop. induction l1 as [|x l1 IH]; intros [|y l2] H; try done.
  cbn in H. apply Forall_cons in H as [Hz H].
  cbn. rewrite (Hop _ _ Hz). cbn.
  change (zip_with pair (List.map VNum l1) (List.map VNum l2))
    with (zip (List.map VNum l1) (List.map VNum l2)).
  rewrite (IH _ H). done.
Qed.

(** X8.  On two double bubbles of integers, [add], [sub] and [mul] work
    pair by pair up to the length of the shorter one and drop the rest of
    the longer one; the result is a double bubble again. *)
Theorem X8_arithmetic_on_vectors op (f : Z -> Z -> Z) (l1 l2 : list Z) :
  (op = js_add /\ f = Z.add) \/ (op = js_sub /\ f = Z.sub) \/ (op = js_mul /\ f = Z.mul) ->
  (2 <= List.length l1)%nat ->
  (2 <= List.length l2)%nat ->
  Forall (fun z => Z.abs z <= max_safe) (zip_with f l1 l2) ->
  Arith.elementwise op (Bub (integers l1)) (Bub (integers l2))
  = Ok (Single (integers (zip_with f l1 l2)))
  /\ List.length (zip_with f l1 l2) = Nat.min (List.length l1) (List.length l2)
  /\ Bubble.isDouble (integers (zip_with f l1 l2)) = true.
Proof.
  intros Hop H1 H2 Hs.
  assert (List.length (zip_with f l1 l2) = Nat.min (List.length l1) (List.length l2))
    as Hlen by apply length_zip_with.
  assert (forall l, (2 <= List.length l)%nat -> Bubble.isDouble (integers l) = true) as Hd.
  { intros l Hl. unfold Bubble.isDouble, integers. cbn [Bubble.backing].
    rewrite length_map. apply Nat.ltb_lt. lia. }
  split; [|split; [done|apply Hd; lia]].
  unfold Arith.elementwise. cbn [deref mbind outcome_bind].
  rewrite !Hd, !isDouble_value by (apply Hd || done; done). cbn [negb andb js_elements].
  assert (forall l, (2 <= List.length l)%nat ->
            Bubble.size (integers l) = List.length l) as Hsz.
  { intros l Hl. unfold Bubble.size, integers. cbn [Bubble.backing].
    rewrite length_map.
    destruct (Nat.eqb_spec (List.length l) 1); [lia|done]. }
  rewrite !Hsz by done. unfold integers at 1 2. cbn [Bubble.backing].
  rewrite take_ge by (rewrite length_zip, !length_map; lia).
  erewrite mapM_zip_integers; [done| |done].
  intros x y Hz.
  destruct Hop as [[-> ->]|[[-> ->]|[-> ->]]]; cbn; unfold js_number;
    match goal with
    | |- context [?a <=? max_safe] => destruct (Z.leb_spec a max_safe)
    end; done || lia.
Qed.

Lemma X8_arithmetic_on_vectors_witness :
  Arith.sub (Bub (integers [10; 20; 30])) (Bub (integers [1; 2]))
  = Ok (Single (integers [9; 18])).
Proof.
  refine (proj1 (X8_arithmetic_on_vectors js_sub Z.sub [10; 20; 30] [1; 2] _ _ _ _)).
  - right. left. split; reflexivity.
  - cbn. lia.
  - cbn. lia.
  - repeat constructor; unfold max_safe; cbn; lia.
Defined.

(** ** Comparisons *)

Lemma js_strict_eq_sym a b : js_strict_eq a b = js_strict_eq b a.
Proof.
  destruct a, b; cbn; try done.
  - by rewrite Z.eqb_sym.
  - by rewrite String.eqb_sym.
Qed.

Lemma all_strict_eq_sym l1 : forall l2,
  Comparator.all_strict_eq l1 l2 = Comparator.all_strict_eq l2 l1.
Proof.
  induction l1 as [|x l1 IH]; intros [|y l2]; cbn; try done.
  rewrite js_strict_eq_sym, IH. done.
Qed.

Lemma all_strict_eq_integers l1 : forall l2,
  List.length l1 = List.length l2 ->
  exists r, Comparator.all_strict_eq (List.map VNum l1) (List.map VNum l2) = Ok r
            /\ (r = true <-> l1 = l2).
Proof.
  induction l1 as [|x l1 IH]; intros [|y l2] H; cbn in H; try done.
  - exists true. done.
  - cbn. destruct (Z.eqb_spec x y) as [->|Hne].
    + destruct (IH l2) as (r & -> & Hr); [lia|]. exists r. split; [done|].
      rewrite Hr. split; [by intros ->|by intros [= ->]].
    + exists false. split; [done|]. split; [done|]. intros [= ? _]. done.
Qed.

(** X9.  [Comparator.equal] is symmetric on all bubbles, a double bubble
    and a single bubble are never equal, and two bubbles of integers are
    equal exactly when they have the same value (so the empty bubble
    equals the bubble holding 0). *)
Theorem X9_equality_of_bubbles (b1 b2 : Bubble.t) :
  Comparator.equal (Bub b1) (Bub b2) = Comparator.equal (Bub b2) (Bub b1)
  /\ (Bubble.isDouble b1 <> Bubble.isDouble b2 ->
      Comparator.equal (Bub b1) (Bub b2) = Ok false)
  /\ (forall l1 l2,
        b1 = integers l1 -> b2 = integers l2 ->
        exists r, Comparator.equal (Bub b1) (Bub b2) = Ok r
                  /\ (r = true <-> Bubble.value b1 = Bubble.value b2)).
Proof.
  split; [|split].
  - unfold Comparator.equal. cbn [deref mbind outcome_bind].
    destruct (Bubble.isDouble b1), (Bubble.isDouble b2); cbn [negb andb orb]; try done.
    + rewrite Nat.eqb_sym, all_strict_eq_sym. done.
    + apply js_strict_eq_sym.
  - intros H. unfold Comparator.equal. cbn [deref mbind outcome_bind].
    destruct (Bubble.isDouble b1), (Bubble.isDouble b2); done.
  - intros l1 l2 -> ->. unfold Comparator.equal. cbn [deref mbind outcome_bind].
    assert (forall x y, exists r, Ok (x =? y) = Ok r
                        /\ (r = true <-> VNum x = VNum y)) as Hs.
    { intros x y. exists (x =? y). split; [done|]. rewrite Z.eqb_eq.
      split; [by intros -> | by intros [= ->]]. }
    destruct l1 as [|x1 [|y1 l1]], l2 as [|x2 [|y2 l2]];
      [apply (Hs 0 0)|apply (Hs 0 x2)|by exists false
      |apply (Hs x1 0)|apply (Hs x1 x2)|by exists false
      |by exists false|by exists false|].
    change (Bubble.isDouble (integers (x1 :: y1 :: l1))) with true.
    change (Bubble.isDouble (integers (x2 :: y2 :: l2))) with true.
    cbn [negb andb orb].
    change (Bubble.size (integers (x1 :: y1 :: l1))) with (S (S (List.length (List.map VNum l1)))).
    change (Bubble.size (integers (x2 :: y2 :: l2))) with (S (S (List.length (List.map VNum l2)))).
    rewrite !length_map.
    destruct (Nat.eqb_spec (S (S (List.length l1))) (S (S (List.length l2)))) as [E|E];
      cbn [negb].
    + destruct (all_strict_eq_integers (x1 :: y1 :: l1) (x2 :: y2 :: l2)) as (r & Hr & Hrr);
        [done|].
      exists r. split; [exact Hr|]. rewrite Hrr.
      unfold Bubble.value, integers. cbn.
      split; [by intros [= -> -> ->]|].
      intros [= -> -> E']. do 2 f_equal.
      revert E'. clear. revert l2. induction l1 as [|a l1 IH]; intros [|b l2]; try done.
      cbn. intros [= -> E']. f_equal. by apply IH.
    + exists false. split; [done|]. split; [done|].
      unfold Bubble.value, integers. cbn. intros [= _ _ E'].
      apply (f_equal (@List.length val)) in E'. rewrite !length_map in E'. lia.
Qed.

Lemma X9_equality_of_bubbles_witness :
  Comparator.equal (Bub (integers [1; 2])) (Bub (integers [7])) = Ok false
  /\ exists r, Comparator.equal (Bub (integers [])) (Bub (integers [0])) = Ok r
               /\ (r = true <-> Bubble.value (integers []) = Bubble.value (integers [0])).
Proof.
  split.
  - destruct (X9_equality_of_bubbles (integers [1; 2]) (integers [7])) as (_ & H & _).
    apply H. discriminate.
  - destruct (X9_equality_of_bubbles (integers []) (integers [0])) as (_ & _ & H).
    apply (H [] [0]); reflexivity.
Defined.

(** X10.  The zero test answers on every bubble, and answers [true] exactly
    on the single bubble holding the integer 0 and on the empty bubble: a
    double bubble of zeros, the text ['0'] and an array are not zero. *)
Theorem X10_zero_test (b : Bubble.t) :
  (exists r, Comparator.zero (Bub b) = Ok r)
  /\ (Comparator.zero (Bub b) = Ok true <-> scalar_of b 0).
Proof.
  unfold Comparator.zero, scalar_of. cbn [deref mbind outcome_bind].
  destruct b as [[|v [|v' l]]]; unfold Bubble.isDouble, Bubble.value;
    cbn [Bubble.backing List.length Nat.ltb Nat.leb negb js_strict_eq].
  - split; [eauto|]. split; [intros _; right; done|done].
  - destruct v as [z|s|a]; cbn [js_strict_eq].
    + split; [eauto|]. destruct (Z.eqb_spec 0 z) as [<-|Hz].
      * split; [intros _; left; done|done].
      * split; [done|]. intros [[= ->]|[? _]]; done.
    + split; [eauto|]. split; [done|]. intros [|[]]; done.
    + split; [eauto|]. split; [done|]. intros [|[]]; done.
  - split; [eauto|]. split; [done|]. intros [|[]]; done.
Qed.

(** ** Moving bubbles around *)

(** What POP hands back. *)
Lemma dispatch_pop tokens labels cursor token (b : Bubble.t) rest r w :
  dispatch tokens labels cursor token OPCODES.POP
    {| abyss := rest ++ [Bub b]; stdin := r; stdout := w |}
  = (Ok (cursor,
         if Bubble.isDouble b
         then Several (List.map (fun v => Bubble.mk [v]) (Bubble.backing b))
         else Null),
     {| abyss := rest; stdin := r; stdout := w |}).
Proof.
  cbv beta iota delta [dispatch OPCODES.POP].
  unfold m_bind at 1.
  rewrite need_bubbles_enough by (cbn; rewrite length_app; cbn; lia).
  unfold m_bind at 1. rewrite abyss_pop_snoc.
  unfold m_bind, m_lift, m_ret, Abysser.pop. cbn [deref mbind outcome_bind].
  by destruct (Bubble.isDouble b).
Qed.

(** X11.  POP takes the top bubble away.  A double bubble is replaced by
    its values, each in a single bubble of its own, in the same order
    (the last value ends on top); any other bubble is just dropped. *)
Theorem X11_pop_drops_or_splits
    tokens labels cursor token executed (b : Bubble.t) rest r w :
  OPCODES.get token = OPCODES.POP ->
  executed + 1 < oplimit ->
  interpreter_step tokens labels token cursor executed
    {| abyss := rest ++ [Bub b]; stdin := r; stdout := w |}
  = (Ok (cursor + 1)%nat, executed + 1,
     {| abyss := rest ++ (if Bubble.isDouble b
                          then List.map (fun v => Bub (Bubble.mk [v])) (Bubble.backing b)
                          else []);
        stdin := r; stdout := w |}).
Proof.
  intros Hc He.
  pose proof (dispatch_pop tokens labels cursor token b rest r w) as Hd.
  rewrite <- Hc in Hd.
  rewrite (interpreter_step_ok _ _ _ _ _ _ _ _ _ Hd).
  destruct (Z.leb_spec oplimit (executed + 1)); [lia|].
  destruct (Bubble.isDouble b); cbn; [|by rewrite app_nil_r].
  by rewrite map_map.
Qed.

Lemma X11_pop_drops_or_splits_witness :
  interpreter_step [7] ∅ 7 0 0
    {| abyss := [Bub (integers [4; 5; 6])]; stdin := ArrayReader.new []; stdout := [] |}
  = (Ok 1%nat, 1,
     {| abyss := scalars [4; 5; 6]; stdin := ArrayReader.new []; stdout := [] |}).
Proof.
  apply (X11_pop_drops_or_splits [7] ∅ 0%nat 7 0 (integers [4; 5; 6]) []
           (ArrayReader.new []) []); [reflexivity|unfold oplimit; lia].
Defined.

(** X12.  CNT leaves the abyss as it is and pushes a single bubble holding
    the size of the bubble that was on top: its number of values for a
    double bubble, 0 for any other. *)
Theorem X12_count_pushes_the_size
    tokens labels cursor token executed (b : Bubble.t) rest r w :
  OPCODES.get token = OPCODES.CNT ->
  executed + 1 < oplimit ->
  interpreter_step tokens labels token cursor executed
    {| abyss := rest ++ [Bub b]; stdin := r; stdout := w |}
  = (Ok (cursor + 1)%nat, executed + 1,
     {| abyss := rest ++ [Bub b; Bub (Bubble.mk [VNum (Z.of_nat (Bubble.size b))])];
        stdin := r; stdout := w |}).
Proof.
  intros Hc He.
  assert (dispatch tokens labels cursor token (OPCODES.get token)
            {| abyss := rest ++ [Bub b]; stdin := r; stdout := w |}
          = (Ok (cursor, Single (Bubble.mk [VNum (Z.of_nat (Bubble.size b))])),
             {| abyss := rest ++ [Bub b]; stdin := r; stdout := w |})) as Hd.
  { rewrite Hc. cbv beta iota delta [dispatch OPCODES.CNT].
    unfold m_bind at 1.
    rewrite need_bubbles_enough by (cbn; rewrite length_app; cbn; lia).
    unfold m_bind at 1, abyss_peek. cbn [abyss].
    rewrite length_app, lookup_app_r by (cbn; lia).
    replace (List.length rest + List.length [Bub b] - 1 - List.length rest)%nat
      with 0%nat by (cbn; lia).
    done. }
  rewrite (interpreter_step_ok _ _ _ _ _ _ _ _ _ Hd).
  destruct (Z.leb_spec oplimit (executed + 1)); [lia|].
  cbn. by rewrite <- app_assoc.
Qed.

Lemma X12_count_pushes_the_size_witness :
  interpreter_step [15] ∅ 15 0 0
    {| abyss := [Bub (integers [4; 5; 6])]; stdin := ArrayReader.new []; stdout := [] |}
  = (Ok 1%nat, 1,
     {| abyss := [Bub (integers [4; 5; 6]); Bub (Bubble.mk [VNum 3])];
        stdin := ArrayReader.new []; stdout := [] |}).
Proof.
  apply (X12_count_pushes_the_size [15] ∅ 0%nat 15 0 (integers [4; 5; 6]) []
           (ArrayReader.new []) []); [reflexivity|unfold oplimit; lia].
Defined.

Lemma scalars_snoc ys y : scalars (ys ++ [y]) = scalars ys ++ [Bub (Bubble.mk [VNum y])].
Proof. unfold scalars. by rewrite map_app. Qed.

(** Surrounding single integer bubbles: the values come out in the order
    of the abyss, bottom first, in front of what the bubble already
    held. *)
Lemma surround_loop_scalars r w : forall ys bubble rest,
  Abysser.surround_loop (List.length ys) bubble
    {| abyss := rest ++ scalars ys; stdin := r; stdout := w |}
  = (Ok (Bubble.mk (List.map VNum ys ++ Bubble.backing bubble)),
     {| abyss := rest; stdin := r; stdout := w |}).
Proof.
  induction ys as [|y ys IH] using rev_ind; intros bubble rest.
  - cbn. rewrite app_nil_r. by destruct bubble.
  - rewrite length_app, Nat.add_1_r, scalars_snoc, app_assoc.
    cbn [Abysser.surround_loop].
    unfold m_bind at 1. rewrite abyss_pop_snoc.
    unfold m_bind at 1, m_lift. cbn [deref].
    rewrite IH. unfold Bubble.merge, Bubble.value. cbn.
    by rewrite map_app, <- app_assoc.
Qed.

(** X13.  SRN with argument [n] on [n >= 2] single integer bubbles
    replaces them by one double bubble holding their integers in the
    order of the abyss, bottom first; POP on that bubble puts the [n]
    single bubbles back: the two turns leave the machine as it was. *)
Theorem X13_surround_then_pop
    tokens labels cursor srn pop executed (ys : list Z) rest r w :
  OPCODES.get srn = OPCODES.SRN ->
  OPCODES.get pop = OPCODES.POP ->
  tokens !! (cursor + 1)%nat = Some (Z.of_nat (List.length ys)) ->
  (2 <= List.length ys)%nat ->
  executed + 2 < oplimit ->
  interpreter_step tokens labels srn cursor executed
    {| abyss := rest ++ scalars ys; stdin := r; stdout := w |}
  = (Ok (cursor + 2)%nat, executed + 1,
     {| abyss := rest ++ [Bub (integers ys)]; stdin := r; stdout := w |})
  /\ interpreter_step tokens labels pop (cursor + 2) (executed + 1)
       {| abyss := rest ++ [Bub (integers ys)]; stdin := r; stdout := w |}
     = (Ok (cursor + 3)%nat, executed + 2,
        {| abyss := rest ++ scalars ys; stdin := r; stdout := w |}).
Proof.
  intros Hs Hp Ha Hn He. split.
  - assert (dispatch tokens labels cursor srn (OPCODES.get srn)
              {| abyss := rest ++ scalars ys; stdin := r; stdout := w |}
            = (Ok ((cursor + 1)%nat, Single (integers ys)),
               {| abyss := rest; stdin := r; stdout := w |})) as Hd.
    { rewrite Hs. cbv beta iota delta [dispatch OPCODES.SRN].
      unfold m_bind at 1, argument. rewrite Ha. unfold m_ret at 1.
      unfold m_bind at 1.
      rewrite need_bubbles_enough
        by (cbn; rewrite length_app; unfold scalars; rewrite length_map; lia).
      unfold m_bind at 1, Abysser.surround. unfold m_bind at 1.
      rewrite Nat2Z.id, surround_loop_scalars. cbn. by rewrite app_nil_r. }
    rewrite (interpreter_step_ok _ _ _ _ _ _ _ _ _ Hd).
    destruct (Z.leb_spec oplimit (executed + 1)); [lia|].
    replace (cursor + 1 + 1)%nat with (cursor + 2)%nat by lia. done.
  - pose proof (dispatch_pop tokens labels (cursor + 2) pop (integers ys) rest r w) as Hd.
    rewrite <- Hp in Hd.
    rewrite (interpreter_step_ok _ _ _ _ _ _ _ _ _ Hd).
    destruct (Z.leb_spec oplimit (executed + 1 + 1)); [lia|].
    assert (Bubble.isDouble (integers ys) = true) as ->.
    { unfold Bubble.isDouble, integers. cbn [Bubble.backing].
      rewrite length_map. apply Nat.ltb_lt. lia. }
    unfold integers, scalars. cbn [Bubble.backing push_result abyss_push snd abyss stdin stdout].
    rewrite !map_map.
    replace (cursor + 2 + 1)%nat with (cursor + 3)%nat by lia.
    replace (executed + 1 + 1) with (executed + 2) by lia. done.
Qed.

Lemma X13_surround_then_pop_witness :
  interpreter_step [9; 3; 7] ∅ 9 0 0
    {| abyss := scalars [4; 5; 6]; stdin := ArrayReader.new []; stdout := [] |}
  = (Ok 2%nat, 1,
     {| abyss := [Bub (integers [4; 5; 6])]; stdin := ArrayReader.new []; stdout := [] |})
  /\ interpreter_step [9; 3; 7] ∅ 7 2 1
       {| abyss := [Bub (integers [4; 5; 6])]; stdin := ArrayReader.new []; stdout := [] |}
     = (Ok 3%nat, 2,
        {| abyss := scalars [4; 5; 6]; stdin := ArrayReader.new []; stdout := [] |}).
Proof.
  apply (X13_surround_then_pop [9; 3; 7] ∅ 0%nat 9 7 0 [4; 5; 6] []
           (ArrayReader.new []) []);
    [reflexivity|reflexivity|reflexivity|cbn; lia|unfold oplimit; lia].
Defined.

(** X14.  SBM with argument [a] on a non-empty abyss takes the top bubble
    and puts it back lower down; nothing is lost or added.  With [a = 0]
    it becomes the bottom; with [1 <= a <= depth of the rest] it ends with
    exactly [a] bubbles above it; with a negative [a] it stays on top; and
    with [a] greater than the depth of the rest it does not go to the
    bottom but to position [2 * depth - a] from the bottom (0 at the
    least), because [splice] counts a negative start from the end. *)
Theorem X14_submerge_moves_the_top
    tokens labels cursor token executed (a : Z) (s : slot) rest r w :
  OPCODES.get token = OPCODES.SBM ->
  tokens !! (cursor + 1)%nat = Some a ->
  executed + 1 < oplimit ->
  exists k : nat,
    interpreter_step tokens labels token cursor executed
      {| abyss := rest ++ [s]; stdin := r; stdout := w |}
    = (Ok (cursor + 2)%nat, executed + 1,
       {| abyss := take k rest ++ s :: drop k rest; stdin := r; stdout := w |})
    /\ take k rest ++ s :: drop k rest ≡ₚ rest ++ [s]
    /\ (k <= List.length rest)%nat
    /\ (a = 0 -> k = 0%nat)
    /\ (1 <= a <= Z.of_nat (List.length rest) ->
        Z.of_nat k = Z.of_nat (List.length rest) - a)
    /\ (a < 0 -> k = List.length rest)
    /\ (Z.of_nat (List.length rest) < a ->
        Z.of_nat k = Z.max (2 * Z.of_nat (List.length rest) - a) 0).
Proof.
  intros Hc Ha He.
  set (len := Z.of_nat (List.length rest)).
  set (k := if a =? 0 then 0%nat
            else Z.to_nat (if len - a <? 0 then Z.max (len + (len - a)) 0
                           else Z.min (len - a) len)).
  exists k.
  assert (dispatch tokens labels cursor token (OPCODES.get token)
            {| abyss := rest ++ [s]; stdin := r; stdout := w |}
          = (Ok ((cursor + 1)%nat, Null),
             {| abyss := take k rest ++ s :: drop k rest; stdin := r; stdout := w |}))
    as Hd.
  { rewrite Hc. cbv beta iota delta [dispatch OPCODES.SBM].
    unfold m_bind at 1, argument. rewrite Ha. unfold m_ret at 1.
    unfold m_bind at 1, Abysser.submerge. unfold m_bind at 1.
    unfold m_bind at 1. rewrite abyss_pop_snoc. subst k.
    destruct (a =? 0); [done|].
    unfold m_bind, abyss_length, abyss_splice_insert, m_ret. cbn [abyss stdin stdout].
    done. }
  rewrite (interpreter_step_ok _ _ _ _ _ _ _ _ _ Hd).
  destruct (Z.leb_spec oplimit (executed + 1)); [lia|].
  replace (cursor + 1 + 1)%nat with (cursor + 2)%nat by lia.
  split; [done|]. split.
  { rewrite <- (take_drop k rest) at 3. rewrite <- app_assoc.
    apply Permutation_app_head. apply Permutation_cons_append. }
  subst k. destruct (Z.eqb_spec a 0) as [->|Hne].
  - repeat split; lia.
  - destruct (Z.ltb_spec (len - a) 0); subst len; repeat split; lia.
Qed.

Lemma X14_submerge_moves_the_top_witness :
  exists k : nat,
    interpreter_step [6; 2] ∅ 6 0 0
      {| abyss := scalars [1; 2; 3; 4]; stdin := ArrayReader.new []; stdout := [] |}
    = (Ok 2%nat, 1,
       {| abyss := take k (scalars [1; 2; 3]) ++ Bub (Bubble.mk [VNum 4])
                     :: drop k (scalars [1; 2; 3]);
          stdin := ArrayReader.new []; stdout := [] |})
    /\ Z.of_nat k = 1.
Proof.
  destruct (X14_submerge_moves_the_top [6; 2] ∅ 0%nat 6 0 2
              (Bub (Bubble.mk [VNum 4])) (scalars [1; 2; 3]) (ArrayReader.new []) [])
    as (k & H1 & _ & _ & _ & H2 & _);
    [reflexivity|reflexivity|unfold oplimit; lia|].
  exists k. split; [exact H1|]. apply H2. cbn. lia.
Defined.

(** X15.  SBM has no test for an empty abyss.  There it raises nothing:
    whatever its argument, it leaves one [undefined] slot in the abyss.
    The program made of that SBM alone then fails when the interpreter
    takes its return value, with a [TypeError]. *)
Theorem X15_submerge_on_an_empty_abyss
    tokens labels cursor token executed (a : Z) r w :
  OPCODES.get token = OPCODES.SBM ->
  tokens !! (cursor + 1)%nat = Some a ->
  executed + 1 < oplimit ->
  interpreter_step tokens labels token cursor executed
    {| abyss := []; stdin := r; stdout := w |}
  = (Ok (cursor + 2)%nat, executed + 1,
     {| abyss := [Undefined]; stdin := r; stdout := w |})
  /\ interpreter [OPCODES.SBM; a] {| abyss := []; stdin := r; stdout := w |}
     = (Throw (TypeError "Cannot read properties of undefined"),
        {| abyss := []; stdin := r; stdout := w |}).
Proof.
  intros Hc Ha He.
  assert (forall tokens0 cursor0 token0,
            tokens0 !! (cursor0 + 1)%nat = Some a ->
            dispatch tokens0 labels cursor0 token0 OPCODES.SBM
              {| abyss := []; stdin := r; stdout := w |}
            = (Ok ((cursor0 + 1)%nat, Null),
               {| abyss := [Undefined]; stdin := r; stdout := w |})) as Hd.
  { intros tokens0 cursor0 token0 Ha0.
    cbv beta iota delta [dispatch OPCODES.SBM].
    unfold m_bind at 1, argument. rewrite Ha0. unfold m_ret at 1.
    unfold Abysser.submerge.
    unfold m_bind, abyss_pop, abyss_unshift, abyss_length, abyss_splice_insert, m_ret.
    cbn [abyss stdin stdout last removelast default].
    destruct (a =? 0); [done|]. cbv beta iota. cbn [abyss stdin stdout].
    rewrite take_nil, drop_nil. done. }
  split.
  - specialize (Hd tokens cursor token Ha). rewrite <- Hc in Hd.
    rewrite (interpreter_step_ok _ _ _ _ _ _ _ _ _ Hd).
    destruct (Z.leb_spec oplimit (executed + 1)); [lia|].
    replace (cursor + 1 + 1)%nat with (cursor + 2)%nat by lia. done.
  - unfold interpreter, interpreter_run.
    change (register_labels 0 [OPCODES.SBM; a] ∅) with (Ok (∅ : gmap Z nat)).
    replace (Z.to_nat oplimit) with (S (Z.to_nat (oplimit - 1)))
      by (unfold oplimit; lia).
    cbn [interpreter_loop].
    change ([OPCODES.SBM; a] !! 0%nat) with (Some OPCODES.SBM). cbv beta iota.
    rewrite (interpreter_step_ok _ _ _ _ _ _ 1%nat Null
               {| abyss := [Undefined]; stdin := r; stdout := w |}).
    + change (oplimit <=? 0 + 1) with false. cbv beta iota.
      cbn [push_result m_ret snd Nat.add].
      destruct (Z.to_nat (oplimit - 1)); done.
    + change (OPCODES.get OPCODES.SBM) with OPCODES.SBM.
      apply (Hd [OPCODES.SBM; a] 0%nat OPCODES.SBM). done.
Qed.

Lemma X15_submerge_on_an_empty_abyss_witness :
  interpreter_step [6; 3] ∅ 6 0 0 AWA5.new
  = (Ok 2%nat, 1,
     {| abyss := [Undefined]; stdin := ArrayReader.new []; stdout := [] |})
  /\ interpreter [6; 3] AWA5.new
     = (Throw (TypeError "Cannot read properties of undefined"), AWA5.new).
Proof.
  apply (X15_submerge_on_an_empty_abyss [6; 3] ∅ 0%nat 6 0 3 (ArrayReader.new []) []);
    [reflexivity|reflexivity|unfold oplimit; lia].
Defined.

(** ** The I/O adapter *)

Lemma string_get_inside s : forall n,
  (n < String.length s)%nat -> exists c, String.get n s = Some c.
Proof.
  induction s as [|c s IH]; intros [|n] H; cbn in *; try lia; eauto.
  apply IH. lia.
Qed.

(** X16.  The letter of a number: an index from 0 to 63 gives the
    character of the alphabet at that place; below 0 or above 64 the range
    error is raised; the index 64, the length of the alphabet, passes the
    range test and gives [undefined]. *)
Theorem X16_letter_of_a_number (z : Z) :
  String.length InOut.ALPHABET = 64%nat
  /\ (0 <= z < 64 ->
      exists c, String.get (Z.to_nat z) InOut.ALPHABET = Some c
                /\ InOut.letter (VNum z) = Ok (Some (String c EmptyString)))
  /\ (z = 64 -> InOut.letter (VNum z) = Ok None)
  /\ (z < 0 \/ 64 < z ->
      InOut.letter (VNum z)
      = Throw (RangeError ("index " ++ js_to_string (VNum z) ++ " out of range"))).
Proof.
  split; [done|]. unfold InOut.letter.
  change (Z.of_nat (String.length InOut.ALPHABET)) with 64.
  split; [|split].
  - intros Hz. destruct (string_get_inside InOut.ALPHABET (Z.to_nat z)) as [c Hc].
    { change (String.length InOut.ALPHABET) with 64%nat. lia. }
    exists c. split; [done|]. rewrite Hc.
    destruct (Z.ltb_spec z 0), (Z.ltb_spec 64 z); done || lia.
  - intros ->. done.
  - intros Hz. destruct (Z.ltb_spec z 0), (Z.ltb_spec 64 z); done || lia.
Qed.

Lemma X16_letter_of_a_number_witness :
  (exists c, String.get (Z.to_nat 2) InOut.ALPHABET = Some c
             /\ InOut.letter (VNum 2) = Ok (Some (String c EmptyString)))
  /\ InOut.letter (VNum 65) = Throw (RangeError "index 65 out of range").
Proof.
  split.
  - destruct (X16_letter_of_a_number 2) as (_ & H & _). apply H. lia.
  - destruct (X16_letter_of_a_number 65) as (_ & _ & _ & H). apply H. lia.
Defined.

Lemma concat_letters (l : list ascii) :
  String.concat "" (List.map (fun c => String c EmptyString) l) = string_of_list_ascii l.
Proof.
  induction l as [|c [|c' l] IH]; [done..|].
  change (String.concat "" (List.map (fun c => String c EmptyString) (c :: c' :: l)))
    with (String c (String.concat "" (List.map (fun c => String c EmptyString) (c' :: l)))).
  rewrite IH. done.
Qed.

Lemma mapM_letter_of_characters (l : list ascii) :
  mapM InOut.letter (List.map (fun c => VStr (String c EmptyString)) l)
  = Ok (List.map (fun c => Some (String c EmptyString)) l).
Proof.
  induction l as [|c l IH]; [done|]. cbn. rewrite IH. done.
Qed.

(** X17.  RED on a line that is not empty and made of characters of the
    alphabet pushes one bubble holding its characters, and PRN on that
    bubble writes the line back as it was read: the two turns leave the
    abyss as it was and add the line to the output. *)
Theorem X17_read_then_print_echoes
    tokens labels cursor red prn executed (s : string) rd rd' l w :
  OPCODES.get red = OPCODES.RED ->
  OPCODES.get prn = OPCODES.PRN ->
  ArrayReader.read rd = (VStr s, rd') ->
  s <> EmptyString ->
  InOut.valid_line s = true ->
  executed + 2 < oplimit ->
  interpreter_step tokens labels red cursor executed
    {| abyss := l; stdin := rd; stdout := w |}
  = (Ok (cursor + 1)%nat, executed + 1,
     {| abyss := l ++ [Bub (Bubble.mk (js_spread_or_self (VStr s)))];
        stdin := rd'; stdout := w |})
  /\ interpreter_step tokens labels prn (cursor + 1) (executed + 1)
       {| abyss := l ++ [Bub (Bubble.mk (js_spread_or_self (VStr s)))];
          stdin := rd'; stdout := w |}
     = (Ok (cursor + 2)%nat, executed + 2,
        {| abyss := l; stdin := rd'; stdout := w ++ [WStr s] |}).
Proof.
  intros Hr Hp Hrd Hs Hv He. split.
  - assert (dispatch tokens labels cursor red (OPCODES.get red)
              {| abyss := l; stdin := rd; stdout := w |}
            = (Ok (cursor, Single (Bubble.mk (js_spread_or_self (VStr s)))),
               {| abyss := l; stdin := rd'; stdout := w |})) as Hd.
    { rewrite Hr. cbv beta iota delta [dispatch OPCODES.RED].
      unfold m_bind at 1, InOut.read. unfold m_bind at 1, stdin_read.
      cbn [abyss stdin stdout]. rewrite Hrd.
      destruct (String.eqb_spec s ""); [done|]. rewrite Hv. done. }
    rewrite (interpreter_step_ok _ _ _ _ _ _ _ _ _ Hd).
    destruct (Z.leb_spec oplimit (executed + 1)); [lia|]. done.
  - assert (dispatch tokens labels (cursor + 1) prn (OPCODES.get prn)
              {| abyss := l ++ [Bub (Bubble.mk (js_spread_or_self (VStr s)))];
                 stdin := rd'; stdout := w |}
            = (Ok ((cursor + 1)%nat, Null),
               {| abyss := l; stdin := rd'; stdout := w ++ [WStr s] |})) as Hd.
    { rewrite Hp. cbv beta iota delta [dispatch OPCODES.PRN].
      unfold m_bind at 1.
      rewrite need_bubbles_enough by (cbn; rewrite length_app; cbn; lia).
      unfold m_bind at 1. rewrite abyss_pop_snoc.
      unfold m_bind at 1, InOut.write. unfold m_bind at 1, m_lift. cbn [deref].
      cbn [js_spread_or_self].
      destruct s as [|c [|c' s]]; [done| |].
      - done.
      - change (Bubble.isDouble _) with true. cbv beta iota. cbn [Bubble.backing].
        unfold m_bind at 1.
        rewrite mapM_letter_of_characters, map_map.
        unfold stdout_write, m_ret. cbn [abyss stdin stdout default].
        rewrite concat_letters, string_of_list_ascii_of_string. done. }
    rewrite (interpreter_step_ok _ _ _ _ _ _ _ _ _ Hd).
    destruct (Z.leb_spec oplimit (executed + 1 + 1)); [lia|].
    replace (cursor + 1 + 1)%nat with (cursor + 2)%nat by lia.
    replace (executed + 1 + 1) with (executed + 2) by lia. done.
Qed.

Lemma X17_read_then_print_echoes_witness :
  interpreter_step [3; 1] ∅ 3 0 0
    {| abyss := []; stdin := ArrayReader.new [VStr "awa!"]; stdout := [] |}
  = (Ok 1%nat, 1,
     {| abyss := [Bub (Bubble.mk (js_spread_or_self (VStr "awa!")))];
        stdin := ArrayReader.mk [VStr "awa!"] 0; stdout := [] |})
  /\ interpreter_step [3; 1] ∅ 1 1 1
       {| abyss := [Bub (Bubble.mk (js_spread_or_self (VStr "awa!")))];
          stdin := ArrayReader.mk [VStr "awa!"] 0; stdout := [] |}
     = (Ok 2%nat, 2,
        {| abyss := []; stdin := ArrayReader.mk [VStr "awa!"] 0;
           stdout := [WStr "awa!"] |}).
Proof.
  apply (X17_read_then_print_echoes [3; 1] ∅ 0%nat 3 1 0 "awa!"
           (ArrayReader.new [VStr "awa!"]) (ArrayReader.mk [VStr "awa!"] 0) [] []);
    [reflexivity|reflexivity|reflexivity|discriminate|reflexivity|unfold oplimit; lia].
Defined.

(** ** Labels *)

(** What the label table holds at any point of the pre-pass: every target
    is the index of the argument of a token whose opcode is LBL, and that
    argument is the label. *)
Lemma register_labels_targets (tokens : list Z) : forall n rest pre labels labels',
  (List.length rest <= n)%nat ->
  tokens = pre ++ rest ->
  (forall a target, labels !! a = Some target ->
     (1 <= target < List.length tokens)%nat /\ tokens !! target = Some a
     /\ exists t, tokens !! (target - 1)%nat = Some t /\ OPCODES.get t = OPCODES.LBL) ->
  register_labels (List.length pre) rest labels = Ok labels' ->
  forall a target, labels' !! a = Some target ->
    (1 <= target < List.length tokens)%nat /\ tokens !! target = Some a
    /\ exists t, tokens !! (target - 1)%nat = Some t /\ OPCODES.get t = OPCODES.LBL.
Proof.
  induction n as [|n IH]; intros rest pre labels labels' Hn Ht Hl.
  { destruct rest; [|cbn in Hn; lia]. cbn. by intros [= <-]. }
  destruct rest as [|token rest']; [cbn; by intros [= <-]|].
  cbn [register_labels].
  set (o1 := if OPCODES.get token =? OPCODES.LBL
                  then match rest' with
                       | [] => Throw (OpcodeError token "not enough arguments")
                       | argument :: _ => Ok (<[argument := (List.length pre + 1)%nat]> labels)
                       end
                  else Ok labels).
  destruct o1 as [labels1| |] eqn:E1; subst o1; cbn [mbind outcome_bind]; [|done..].
  assert (forall a target, labels1 !! a = Some target ->
     (1 <= target < List.length tokens)%nat /\ tokens !! target = Some a
     /\ exists t, tokens !! (target - 1)%nat = Some t /\ OPCODES.get t = OPCODES.LBL) as Hl1.
  { destruct (Z.eqb_spec (OPCODES.get token) OPCODES.LBL) as [Hc|_];
      [|by injection E1 as <-].
    destruct rest' as [|argument rest'']; [done|]. injection E1 as <-.
    intros a target. rewrite lookup_insert. case_decide as Ha.
    - intros [= <-]. subst a tokens. rewrite length_app. cbn [List.length].
      split; [lia|]. split.
      + rewrite lookup_app_r by lia.
        replace (List.length pre + 1 - List.length pre)%nat with 1%nat by lia. done.
      + exists token. split; [|done]. rewrite lookup_app_r by lia.
        replace (List.length pre + 1 - 1 - List.length pre)%nat with 0%nat by lia. done.
    - apply Hl. }
  cbn in Hn.
  destruct (OPCODES.parameterized token).
  - destruct rest' as [|x rest'']; [intros [= <-]; exact Hl1|].
    replace (List.length pre + 2)%nat with (List.length (pre ++ [token; x]))
      by (rewrite length_app; cbn; lia).
    apply IH; [cbn in Hn; lia| |exact Hl1]. by rewrite <- app_assoc.
  - replace (List.length pre + 1)%nat with (List.length (pre ++ [token]))
      by (rewrite length_app; cbn; lia).
    apply IH; [lia| |exact Hl1]. by rewrite <- app_assoc.
Qed.

(** X18.  A jump to a registered label continues with the token that
    follows the argument of a LBL with that label, wherever that LBL
    stands, before or after the jump: the target kept in the table is
    the index of that argument, inside the token sequence. *)
Theorem X18_jump_lands_after_its_label
    tokens labels cursor token (a : Z) (target : nat) executed m :
  register_labels 0 tokens ∅ = Ok labels ->
  OPCODES.get token = OPCODES.JMP ->
  tokens !! (cursor + 1)%nat = Some a ->
  labels !! a = Some target ->
  executed + 1 < oplimit ->
  interpreter_step tokens labels token cursor executed m
  = (Ok (target + 1)%nat, executed + 1, m)
  /\ (1 <= target < List.length tokens)%nat
  /\ tokens !! target = Some a
  /\ exists t, tokens !! (target - 1)%nat = Some t /\ OPCODES.get t = OPCODES.LBL.
Proof.
  intros Hr Hc Ha Hl He. split.
  - rewrite (interpreter_step_ok _ _ _ _ _ _ target Null m).
    + destruct (Z.leb_spec oplimit (executed + 1)); [lia|done].
    + rewrite Hc. cbv beta iota delta [dispatch OPCODES.JMP].
      unfold m_bind, argument, m_ret. rewrite Ha. unfold jump_if. rewrite Hl. done.
  - apply (register_labels_targets tokens (List.length tokens) tokens [] ∅ labels);
      [done|done| |done|done].
    intros a0 t0. rewrite lookup_empty. done.
Qed.

Lemma X18_jump_lands_after_its_label_witness :
  interpreter_step [17; 4; 5; 9; 16; 4; 5; 7] (<[4 := 5%nat]> ∅) 17 0 0 AWA5.new
  = (Ok 6%nat, 1, AWA5.new)
  /\ [17; 4; 5; 9; 16; 4; 5; 7] !! 5%nat = Some 4.
Proof.
  destruct (X18_jump_lands_after_its_label [17; 4; 5; 9; 16; 4; 5; 7]
              (<[4 := 5%nat]> ∅) 0%nat 17 4 5%nat 0 AWA5.new)
    as (H1 & _ & H2 & _);
    [reflexivity|reflexivity|reflexivity|reflexivity|unfold oplimit; lia|].
  split; [exact H1|exact H2].
Defined.

(** A jump forward on a whole program: JMP 4, BLO 9, LBL 4, BLO 7 skips
    the first push and returns 7. *)
Example forward_jump_program :
  interpreter [17; 4; 5; 9; 16; 4; 5; 7] AWA5.new = (Ok (VNum 7), AWA5.new).
Proof. vm_compute. done. Qed.

(** ** Runs *)

(** X19.  Every run of the pre-pass and the main loop ends, whatever the
    tokens and the machine, with between 0 and 10000 operations counted. *)
Theorem X19_every_run_ends (tokens : list Z) (m : machine) :
  exists o n m', interpreter_run tokens m = Some (o, n, m') /\ 0 <= n <= 10000.
Proof.
  destruct (interpreter_run tokens m) as [[[o n] m']|] eqn:E.
  - exists o, n, m'. split; [done|].
    unfold interpreter_run in E.
    destruct (register_labels 0 tokens ∅) as [labels| |].
    + apply interpreter_loop_counts in E as [E _]; [|done]. unfold oplimit in E. lia.
    + injection E as <- <- <-. lia.
    + injection E as <- <- <-. lia.
  - by apply interpreter_run_total in E.
Qed.

(** X20.  When a program is decoded and its run returns, [run] returns the
    interpreter's value, the abyss is empty and the reader is back at its
    first line; the output is what the interpreter wrote. *)
Theorem X20_returning_run_resets input tokens m v m1 :
  parser input = Ok tokens ->
  interpreter tokens m = (Ok v, m1) ->
  AWA5.run input m
  = (Ok v, {| abyss := []; stdin := ArrayReader.mk (ArrayReader.backing (stdin m1)) (-1);
              stdout := stdout m1 |}).
Proof.
  intros Hp Hi. unfold AWA5.run. rewrite Hp, Hi.
  apply interpreter_ok_clears in Hi. rewrite Hi. done.
Qed.

Lemma X20_returning_run_resets_witness :
  AWA5.run "awa awa awawa awa awa"
    {| abyss := []; stdin := ArrayReader.new [VNum 1; VNum 2; VNum 3]; stdout := [] |}
  = (Ok (VNum 1),
     {| abyss := []; stdin := ArrayReader.mk [VNum 1; VNum 2; VNum 3] (-1);
        stdout := [] |}).
Proof.
  apply (X20_returning_run_resets "awa awa awawa awa awa" [4]
           {| abyss := []; stdin := ArrayReader.new [VNum 1; VNum 2; VNum 3];
              stdout := [] |}
           (VNum 1)
           {| abyss := []; stdin := ArrayReader.mk [VNum 1; VNum 2; VNum 3] 0;
              stdout := [] |}); reflexivity.
Defined.

(** ** The tokenizer, further *)

Lemma js_shl1_small v : - 2 ^ 30 <= v < 2 ^ 30 -> js_shl1 v = 2 * v.
Proof.
  intros H. unfold js_shl1, to_int32. rewrite Z.shiftl_mul_pow2 by lia.
  rewrite Z.mod_small; lia.
Qed.

Lemma parser_inv_init start : parser_inv (parser_init start).
Proof. unfold parser_inv, parser_init. cbn. repeat split; (lia || constructor). Qed.

Lemma parser_inv_step cleaned st st' :
  parser_inv st -> parser_step cleaned st = Ok st' -> parser_inv st'.
Proof.
  intros (Ht & Hb & Hv & Hf) E.
  assert (exists value cursor,
            parser_unit cleaned st = Ok (value, cursor)
            /\ - 2 ^ (p_bits st + 1 - 1) <= value < 2 ^ (p_bits st + 1)) as (value & cursor & Hu & Hr).
  { destruct (parser_step_cursor _ _ _ E) as [value Hu].
    exists value, (p_cursor st'). split; [done|].
    assert (p_bits st ∈ [0; 1; 2; 3; 4; 5; 6; 7]) as Hbits by (set_unfold; lia).
    apply parser_unit_spec in Hu as [(_ & _ & ->)|[(_ & _ & ->)|(_ & _ & Hz & ->)]].
    - set_unfold in Hbits.
      destruct Hbits as [Hz|[Hz|[Hz|[Hz|[Hz|[Hz|[Hz|[Hz|[]]]]]]]]];
        rewrite Hz in *; cbn in Hv; rewrite js_shl1_small by lia; cbn; lia.
    - set_unfold in Hbits.
      destruct Hbits as [Hz|[Hz|[Hz|[Hz|[Hz|[Hz|[Hz|[Hz|[]]]]]]]]];
        rewrite Hz in *; cbn in Hv; rewrite js_shl1_small by lia; cbn; lia.
    - rewrite Hz. cbn. lia. }
  unfold parser_step in E. rewrite Hu in E. cbn [mbind outcome_bind] in E.
  assert (p_target st <= p_bits st + 1 -> -128 <= value <= 255) as Hpush.
  { intros Hle. destruct Ht as [Ht|Ht]; rewrite Ht in *.
    - assert (p_bits st = 4) as Hz by lia. rewrite Hz in Hr. cbn in Hr. lia.
    - assert (p_bits st = 7) as Hz by lia. rewrite Hz in Hr. cbn in Hr. lia. }
  destruct (Z.leb_spec (p_target st) (p_bits st + 1)) as [Hle|Hlt].
  - assert (Forall (fun t => -128 <= t <= 255) (p_tokens st ++ [value])) as Hf'
      by (apply Forall_app; split; [done|]; constructor; [by apply Hpush|constructor]).
    destruct (p_parameter st); [|destruct (OPCODES.parameterized _)];
      injection E as <-; unfold parser_inv; cbn;
      (split; [tauto|]); (split; [lia|]); (split; [lia|]); done.
  - injection E as <-. unfold parser_inv. cbn.
    split; [done|]. split; [lia|]. split; [done|done].
Qed.

Lemma parser_loop_inv cleaned : forall fuel st tokens,
  parser_inv st ->
  parser_loop fuel cleaned st = Some (Ok tokens) ->
  Forall (fun t => -128 <= t <= 255) tokens.
Proof.
  induction fuel as [|fuel IH]; intros st tokens Hi; cbn.
  - destruct (parser_guard cleaned st); [done|]. intros [= <-]. apply Hi.
  - destruct (parser_guard cleaned st); [|intros [= <-]; apply Hi].
    destruct (parser_step cleaned st) as [st'| |] eqn:E; [|done..].
    apply IH. by eapply parser_inv_step.
Qed.

(** X21.  Every token the tokenizer returns fits 8 bits, read as signed or
    as unsigned: it lies between -128 and 255. *)
Theorem X21_tokens_fit_eight_bits (input : string) (tokens : list Z) :
  parser input = Ok tokens ->
  Forall (fun t => -128 <= t <= 255) tokens.
Proof.
  unfold parser. destruct (index 0 "awa" (sanitize input)) as [start|]; [|done].
  destruct (parser_loop _ _ _) as [[tokens'| |]|] eqn:E; try done.
  intros [= <-]. eapply parser_loop_inv; [apply parser_inv_init|exact E].
Qed.

Lemma X21_tokens_fit_eight_bits_witness :
  Forall (fun t => -128 <= t <= 255) [6; -1].
Proof.
  exact (X21_tokens_fit_eight_bits "awa awa awawawa awa ~wawawawawawawawa" [6; -1]
           eq_refl).
Defined.

Lemma parser_step_outcomes cleaned st :
  (exists st', parser_step cleaned st = Ok st')
  \/ parser_step cleaned st
     = Throw (SyntaxError ("malformed input ("
                             ++ NilZero.string_of_uint (Nat.to_uint (p_cursor st)) ++ ")")).
Proof.
  unfold parser_step, parser_unit.
  destruct (String.eqb "wa" _); [|destruct (String.eqb " awa" _);
    [|destruct (String.eqb " ~wa" _ && (p_bits st =? 0)); [|by right]]];
    left; cbn [mbind outcome_bind]; repeat case_match; eauto.
Qed.

(** The only exception the decoding loop raises is the syntax error for
    the text at the cursor, and the cursor then has two characters or more
    after it. *)
Lemma parser_loop_errors cleaned : forall fuel st r,
  parser_loop fuel cleaned st = Some r ->
  (exists tokens, r = Ok tokens)
  \/ exists n : nat,
       (n + 2 <= String.length cleaned)%nat
       /\ r = Throw (SyntaxError ("malformed input ("
                                    ++ NilZero.string_of_uint (Nat.to_uint n) ++ ")")).
Proof.
  induction fuel as [|fuel IH]; intros st r; cbn.
  - destruct (parser_guard cleaned st); [done|]. intros [= <-]. eauto.
  - destruct (parser_guard cleaned st) eqn:G; [|intros [= <-]; eauto].
    destruct (parser_step_outcomes cleaned st) as [[st' ->]| ->]; [by apply IH|].
    intros [= <-]. right. exists (p_cursor st).
    apply parser_guard_spec in G. split; [lia|done].
Qed.

(** X22.  The tokenizer always ends, in one of three ways: with tokens;
    with the syntax error for a missing start marker, when the cleaned
    text has no [awa]; or with the syntax error for malformed input, which
    names a cursor position that has two characters or more after it in
    the cleaned text. *)
Theorem X22_tokenizer_outcomes (input : string) :
  (exists tokens, parser input = Ok tokens)
  \/ (String.index 0 "awa" (sanitize input) = None
      /\ parser input = Throw (SyntaxError "missing start of block"))
  \/ exists n : nat,
       (n + 2 <= String.length (sanitize input))%nat
       /\ parser input
          = Throw (SyntaxError ("malformed input ("
                                  ++ NilZero.string_of_uint (Nat.to_uint n) ++ ")")).
Proof.
  unfold parser. destruct (index 0 "awa" (sanitize input)) as [start|]; [|by right; left].
  destruct (parser_loop _ _ _) as [r|] eqn:E.
  - apply parser_loop_errors in E as [[tokens ->]|(n & Hn & ->)]; [left|right; right]; eauto.
  - apply parser_loop_fuel in E; [done|lia].
Qed.

(** ** The round trip through the tokenizer *)

Lemma string_length_append s1 s2 :
  String.length (s1 ++ s2) = (String.length s1 + String.length s2)%nat.
Proof. induction s1 as [|c s1 IH]; simpl; [done|]. by rewrite IH. Qed.

Lemma substring_skip pre n s :
  String.substring (String.length pre) n (pre ++ s) = String.substring 0 n s.
Proof. induction pre as [|c pre IH]; simpl; [done|]. exact IH. Qed.

Lemma substring_0_0 s : String.substring 0 0 s = EmptyString.
Proof. by destruct s. Qed.

Lemma unit_text_length u : (2 <= String.length (unit_text u) <= 4)%nat.
Proof. destruct u; cbn; lia. Qed.

(** The unit found at the cursor when the text goes on with the unit
    [u]. *)
Lemma parser_unit_at pre u post st :
  p_cursor st = String.length pre ->
  (u = Seed -> p_bits st = 0) ->
  parser_guard (pre ++ unit_text u ++ post) st = true
  /\ parser_unit (pre ++ unit_text u ++ post) st
     = Ok (match u with
           | One => js_shl1 (p_value st) + 1
           | Zero => js_shl1 (p_value st)
           | Seed => -1
           end, (p_cursor st + String.length (unit_text u))%nat).
Proof.
  intros Hc Hs. split.
  - apply parser_guard_spec. rewrite !string_length_append, Hc.
    pose proof (unit_text_length u). lia.
  - unfold parser_unit, js_substring. rewrite Hc.
    replace (String.length pre + 2 - String.length pre)%nat with 2%nat by lia.
    replace (String.length pre + 4 - String.length pre)%nat with 4%nat by lia.
    rewrite !substring_skip.
    destruct u; cbv beta iota fix delta [unit_text String.append]; cbn;
      rewrite ?substring_0_0; cbn; try done.
    rewrite Hs by done. done.
Qed.

(** One turn of the loop on a unit that does not complete the token. *)
Lemma parser_step_inside pre u post st :
  p_cursor st = String.length pre ->
  (u = Seed -> p_bits st = 0) ->
  p_bits st + 1 < p_target st ->
  forall fuel,
    parser_loop (S fuel) (pre ++ unit_text u ++ post) st
    = parser_loop fuel (pre ++ unit_text u ++ post)
        {| p_cursor := (p_cursor st + String.length (unit_text u))%nat;
           p_bits := p_bits st + 1; p_target := p_target st;
           p_value := match u with
                      | One => js_shl1 (p_value st) + 1
                      | Zero => js_shl1 (p_value st)
                      | Seed => -1
                      end;
           p_parameter := p_parameter st; p_tokens := p_tokens st |}.
Proof.
  intros Hc Hs Hb fuel. destruct (parser_unit_at pre u post st Hc Hs) as [G U].
  cbn [parser_loop]. rewrite G. unfold parser_step. rewrite U.
  cbn [mbind outcome_bind].
  destruct (Z.leb_spec (p_target st) (p_bits st + 1)); [lia|done].
Qed.

(** One turn of the loop on the unit that completes the token. *)
Lemma parser_step_last pre u post cursor bits value parameter tokens :
  cursor = String.length pre ->
  u <> Seed ->
  bits + 1 = Z.of_nat (token_width parameter) ->
  forall fuel,
    parser_loop (S fuel) (pre ++ unit_text u ++ post)
      {| p_cursor := cursor; p_bits := bits;
         p_target := Z.of_nat (token_width parameter); p_value := value;
         p_parameter := parameter; p_tokens := tokens |}
    = parser_loop fuel (pre ++ unit_text u ++ post)
        (parser_fresh (cursor + String.length (unit_text u))
           (next_is_parameter parameter
              (match u with One => js_shl1 value + 1 | _ => js_shl1 value end))
           (tokens ++ [match u with One => js_shl1 value + 1 | _ => js_shl1 value end])).
Proof.
  intros Hc Hs Hb fuel.
  destruct (parser_unit_at pre u post
              {| p_cursor := cursor; p_bits := bits;
                 p_target := Z.of_nat (token_width parameter); p_value := value;
                 p_parameter := parameter; p_tokens := tokens |} Hc) as [G U];
    [done|].
  cbn [parser_loop]. rewrite G. unfold parser_step. rewrite U.
  cbn [mbind outcome_bind p_cursor p_bits p_target p_value p_parameter p_tokens].
  destruct (Z.leb_spec (Z.of_nat (token_width parameter)) (bits + 1)); [|lia].
  unfold parser_fresh, next_is_parameter.
  destruct u; [| |done]; destruct parameter; try done;
    destruct (OPCODES.parameterized _); done.
Qed.

Lemma string_app_cons c (s t : string) :
  (String c s ++ t)%string = String c (s ++ t).
Proof. reflexivity. Qed.

Lemma string_app_assoc (s1 s2 s3 : string) :
  ((s1 ++ s2) ++ s3)%string = (s1 ++ (s2 ++ s3))%string.
Proof.
  induction s1 as [|c s1 IH]; [done|]. by rewrite !string_app_cons, IH.
Qed.

Lemma string_app_empty (s : string) : (s ++ "")%string = s.
Proof. induction s as [|c s IH]; [done|]. by rewrite string_app_cons, IH. Qed.

Lemma units_text_app l1 l2 :
  units_text (l1 ++ l2) = (units_text l1 ++ units_text l2)%string.
Proof.
  induction l1 as [|u l1 IH]; cbn [units_text app]; [done|].
  by rewrite IH, string_app_assoc.
Qed.

Lemma bit_units_length n v : List.length (bit_units n v) = n.
Proof. induction n as [|n IH]; cbn [bit_units List.length]; [done|]. by rewrite IH. Qed.

Lemma units_text_length l : (List.length l <= String.length (units_text l))%nat.
Proof.
  induction l as [|u l IH]; cbn [units_text List.length]; [simpl; lia|].
  rewrite string_length_append. pose proof (unit_text_length u). lia.
Qed.

Lemma mod_pow2_succ v n :
  v mod 2 ^ Z.of_nat (S n)
  = Z.b2z (Z.testbit v (Z.of_nat n)) * 2 ^ Z.of_nat n + v mod 2 ^ Z.of_nat n.
Proof.
  rewrite Nat2Z.inj_succ, Z.pow_succ_r by lia.
  rewrite (Z.mul_comm 2), Z.rem_mul_r by lia.
  rewrite Z.testbit_spec' by lia. lia.
Qed.

(** The loop on the [n] last bits of a token: it shifts them into the
    value read so far and pushes the token. *)
Lemma parser_loop_bits parameter tokens v n :
  forall pre post a p fuel,
    (1 <= n)%nat ->
    Z.of_nat n <= Z.of_nat (token_width parameter) ->
    0 < p -> - p <= a < p -> p * 2 ^ Z.of_nat n <= 2 ^ 30 ->
    parser_loop (n + fuel) (pre ++ units_text (bit_units n v) ++ post)
      {| p_cursor := String.length pre;
         p_bits := Z.of_nat (token_width parameter) - Z.of_nat n;
         p_target := Z.of_nat (token_width parameter); p_value := a;
         p_parameter := parameter; p_tokens := tokens |}
    = parser_loop fuel (pre ++ units_text (bit_units n v) ++ post)
        (parser_fresh
           (String.length pre + String.length (units_text (bit_units n v)))
           (next_is_parameter parameter
              (a * 2 ^ Z.of_nat n + v mod 2 ^ Z.of_nat n))
           (tokens ++ [a * 2 ^ Z.of_nat n + v mod 2 ^ Z.of_nat n])).
Proof.
  induction n as [|n IH]; intros pre post a p fuel Hn Hw Hp Ha Hroom; [lia|].
  assert (H2 : 0 < 2 ^ Z.of_nat n) by (apply Z.pow_pos_nonneg; lia).
  assert (Hshl : js_shl1 a = 2 * a).
  { apply js_shl1_small. rewrite Nat2Z.inj_succ, Z.pow_succ_r in Hroom by lia. nia. }
  set (u := if Z.testbit v (Z.of_nat n) then One else Zero).
  assert (Hu : u <> Seed) by (subst u; destruct (Z.testbit _ _); done).
  assert (Hx : match u with One => js_shl1 a + 1 | _ => js_shl1 a end
               = 2 * a + Z.b2z (Z.testbit v (Z.of_nat n))).
  { subst u. rewrite Hshl. destruct (Z.testbit _ _); cbn [Z.b2z]; lia. }
  assert (Hv : a * 2 ^ Z.of_nat (S n) + v mod 2 ^ Z.of_nat (S n)
               = (2 * a + Z.b2z (Z.testbit v (Z.of_nat n))) * 2 ^ Z.of_nat n
                 + v mod 2 ^ Z.of_nat n).
  { rewrite mod_pow2_succ, Nat2Z.inj_succ, Z.pow_succ_r by lia. lia. }
  cbn [bit_units units_text]. fold u.
  rewrite string_app_assoc, Hv.
  destruct (decide (n = 0%nat)) as [-> | Hn0].
  - cbn [bit_units units_text plus].
    rewrite (parser_step_last pre u _ (String.length pre)) by (done || lia).
    rewrite Hx, string_length_append. cbn [String.length].
    rewrite Z.pow_0_r, Z.mod_1_r, Nat.add_0_r, Z.mul_1_r, Z.add_0_r. done.
  - cbn [plus].
    rewrite (parser_step_inside pre u) by (cbn; (done || lia)).
    cbn [p_cursor p_bits p_target p_value p_parameter p_tokens].
    replace (match u with One => js_shl1 a + 1 | Zero => js_shl1 a | Seed => -1 end)
      with (2 * a + Z.b2z (Z.testbit v (Z.of_nat n)))
      by (rewrite <- Hx; destruct u; done).
    rewrite <- (string_app_assoc pre), <- string_length_append.
    replace (Z.of_nat (token_width parameter) - Z.of_nat (S n) + 1)
      with (Z.of_nat (token_width parameter) - Z.of_nat n) by lia.
    rewrite (IH (pre ++ unit_text u)%string post _ (2 * p)); try lia.
    + rewrite !string_length_append.
      by rewrite Nat.add_assoc.
    + destruct (Z.testbit _ _); cbn [Z.b2z]; lia.
    + rewrite Nat2Z.inj_succ, Z.pow_succ_r in Hroom by lia. lia.
Qed.

(** The loop on the text of one token, from the state between two
    tokens. *)
Lemma parser_loop_token parameter tokens t pre post fuel :
  - 2 ^ (Z.of_nat (token_width parameter) - 1) <= t
    < 2 ^ Z.of_nat (token_width parameter) ->
  parser_loop (List.length (token_units (token_width parameter) t) + fuel)
    (pre ++ units_text (token_units (token_width parameter) t) ++ post)
    (parser_fresh (String.length pre) parameter tokens)
  = parser_loop fuel
      (pre ++ units_text (token_units (token_width parameter) t) ++ post)
      (parser_fresh
         (String.length pre
          + String.length (units_text (token_units (token_width parameter) t)))
         (next_is_parameter parameter t) (tokens ++ [t])).
Proof.
  intros Ht. unfold token_units.
  assert (Hw : (5 <= token_width parameter <= 8)%nat)
    by (destruct parameter; cbn; lia).
  assert (Hroom : 2 ^ Z.of_nat (token_width parameter) <= 2 ^ 30)
    by (apply Z.pow_le_mono_r; lia).
  destruct (Z.ltb_spec t 0) as [Hneg | Hpos].
  - set (n := (token_width parameter - 1)%nat).
    assert (Hn : Z.of_nat n = Z.of_nat (token_width parameter) - 1) by lia.
    cbn [List.length units_text plus]. rewrite bit_units_length.
    rewrite string_app_assoc.
    rewrite (parser_step_inside pre Seed) by (cbn; (done || lia)).
    cbn [p_cursor p_bits p_target p_value p_parameter p_tokens parser_fresh].
    rewrite <- (string_app_assoc pre), <- string_length_append.
    replace (0 + 1) with (Z.of_nat (token_width parameter) - Z.of_nat n) by lia.
    rewrite (parser_loop_bits parameter tokens t n (pre ++ unit_text Seed)%string
               post (-1) 1); try lia.
    + assert (Hv : -1 * 2 ^ Z.of_nat n + t mod 2 ^ Z.of_nat n = t).
      { rewrite Hn.
        assert (0 < 2 ^ (Z.of_nat (token_width parameter) - 1))
          by (apply Z.pow_pos_nonneg; lia).
        rewrite <- (Z.mod_add t 1) by lia. rewrite Z.mod_small; lia. }
      rewrite Hv, !string_length_append. by rewrite Nat.add_assoc.
    + rewrite Hn. etrans; [|exact Hroom].
      rewrite Z.mul_1_l. apply Z.pow_le_mono_r; lia.
  - rewrite bit_units_length.
    pose proof (parser_loop_bits parameter tokens t (token_width parameter) pre
                  post 0 1 fuel) as H.
    rewrite Z.sub_diag, Z.mul_0_l, Z.add_0_l, Z.mod_small in H by lia.
    apply H; lia.
Qed.

(** The loop on the text of a token sequence that ends the text. *)
Lemma parser_loop_program tokens :
  forall parameter pre acc fuel,
    encodable parameter tokens ->
    parser_loop (List.length (program_units parameter tokens) + fuel)
      (pre ++ units_text (program_units parameter tokens))
      (parser_fresh (String.length pre) parameter acc)
    = Some (Ok (acc ++ tokens)).
Proof.
  induction tokens as [|t ts IH]; intros parameter pre acc fuel He.
  - cbn [program_units units_text List.length plus].
    destruct fuel; cbn [parser_loop];
      destruct (parser_guard _ _) eqn:G;
      try (apply parser_guard_spec in G; rewrite string_app_empty in G;
           cbn in G; lia);
      cbn; by rewrite app_nil_r.
  - destruct He as [Ht He]. cbn [program_units].
    rewrite units_text_app, length_app, <- Nat.add_assoc.
    rewrite (parser_loop_token parameter acc t pre) by done.
    rewrite <- string_app_assoc, <- string_length_append.
    rewrite IH by done. by rewrite <- app_assoc.
Qed.

Lemma list_ascii_of_units u l :
  list_ascii_of_string (units_text (u :: l))
  = match u with
    | One => ["w"; "a"]
    | Zero => [" "; "a"; "w"; "a"]
    | Seed => [" "; "~"; "w"; "a"]
    end%char ++ list_ascii_of_string (units_text l).
Proof. by destruct u. Qed.

(** The text of a token sequence is made of the kept characters in lower
    case with single spaces: cleaning it changes nothing. *)
Lemma sanitize_encode tokens : sanitize (encode tokens) = encode tokens.
Proof.
  unfold sanitize, encode.
  rewrite <- (string_of_list_ascii_of_string
                ("awa" ++ units_text (program_units false tokens))) at 2.
  f_equal.
  change (list_ascii_of_string ("awa" ++ ?s))
    with ("a"%char :: "w"%char :: "a"%char :: list_ascii_of_string s).
  generalize (program_units false tokens) as l. intros l.
  assert (H : List.map to_lower
                (collapse_spaces false
                   (List.filter is_kept (list_ascii_of_string (units_text l))))
              = list_ascii_of_string (units_text l)).
  { induction l as [|u l IH]; [done|].
    rewrite list_ascii_of_units. destruct u; cbn [app].
    - change (List.filter is_kept ("w"%char :: "a"%char :: ?r))
        with ("w"%char :: "a"%char :: List.filter is_kept r).
      change (collapse_spaces false ("w"%char :: "a"%char :: ?r))
        with ("w"%char :: "a"%char :: collapse_spaces false r).
      change (List.map to_lower ("w"%char :: "a"%char :: ?r))
        with ("w"%char :: "a"%char :: List.map to_lower r).
      by rewrite IH.
    - change (List.filter is_kept (" "%char :: "a"%char :: "w"%char :: "a"%char :: ?r))
        with (" "%char :: "a"%char :: "w"%char :: "a"%char :: List.filter is_kept r).
      change (collapse_spaces false (" "%char :: "a"%char :: "w"%char :: "a"%char :: ?r))
        with (" "%char :: "a"%char :: "w"%char :: "a"%char :: collapse_spaces false r).
      change (List.map to_lower (" "%char :: "a"%char :: "w"%char :: "a"%char :: ?r))
        with (" "%char :: "a"%char :: "w"%char :: "a"%char :: List.map to_lower r).
      by rewrite IH.
    - change (List.filter is_kept (" "%char :: "~"%char :: "w"%char :: "a"%char :: ?r))
        with (" "%char :: "~"%char :: "w"%char :: "a"%char :: List.filter is_kept r).
      change (collapse_spaces false (" "%char :: "~"%char :: "w"%char :: "a"%char :: ?r))
        with (" "%char :: "~"%char :: "w"%char :: "a"%char :: collapse_spaces false r).
      change (List.map to_lower (" "%char :: "~"%char :: "w"%char :: "a"%char :: ?r))
        with (" "%char :: "~"%char :: "w"%char :: "a"%char :: List.map to_lower r).
      by rewrite IH. }
  change (List.filter is_kept ("a"%char :: "w"%char :: "a"%char :: ?r))
    with ("a"%char :: "w"%char :: "a"%char :: List.filter is_kept r).
  change (collapse_spaces false ("a"%char :: "w"%char :: "a"%char :: ?r))
    with ("a"%char :: "w"%char :: "a"%char :: collapse_spaces false r).
  change (List.map to_lower ("a"%char :: "w"%char :: "a"%char :: ?r))
    with ("a"%char :: "w"%char :: "a"%char :: List.map to_lower r).
  by rewrite H.
Qed.

(** X23.  Tokenizing is the inverse of writing a program down.  A token
    sequence in which every opcode fits 5 bits and every argument 8 bits,
    written with "wa" for a one, " awa" for a zero and " ~wa" for the sign
    bit after the start marker, is read back by the tokenizer as the same
    sequence. *)
Theorem X23_tokenizer_round_trip (tokens : list Z) :
  encodable false tokens -> parser (encode tokens) = Ok tokens.
Proof.
  intros He. unfold parser. rewrite sanitize_encode.
  assert (Hi : String.index 0 "awa" (encode tokens) = Some 0%nat).
  { unfold encode. rewrite !string_app_cons. cbn [String.index].
    assert (Hp : String.prefix "awa" (String "a" (String "w" (String "a"
                   ("" ++ units_text (program_units false tokens))))) = true).
    { apply prefix_correct. cbn [String.length String.substring].
      by rewrite substring_0_0. }
    by rewrite Hp. }
  rewrite Hi.
  change (parser_init 0) with (parser_fresh (String.length "awa") false []).
  unfold encode.
  pose proof (units_text_length (program_units false tokens)) as Hl.
  rewrite string_length_append.
  replace (String.length "awa" + String.length (units_text (program_units false tokens)))%nat
    with (List.length (program_units false tokens)
          + (3 + String.length (units_text (program_units false tokens))
             - List.length (program_units false tokens)))%nat
    by (cbn [String.length]; lia).
  by rewrite parser_loop_program.
Qed.

Lemma X23_tokenizer_round_trip_witness :
  encodable false [5; -3; 1; 6; 200; -16; 9; 31]
  /\ parser (encode [5; -3; 1; 6; 200; -16; 9; 31])
     = Ok [5; -3; 1; 6; 200; -16; 9; 31].
Proof.
  assert (He : encodable false [5; -3; 1; 6; 200; -16; 9; 31])
    by (vm_compute; repeat split; (reflexivity || discriminate)).
  split; [exact He|].
  exact (X23_tokenizer_round_trip _ He).
Defined.

(** The text of [BLO -3; PRN; SBM 200; LBL 9; TRM], the label opcode
    written as the negative token -16. *)
Example encode_text :
  encode [5; -3; 1; 6; 200; -16; 9; 31]
  = "awa awa awawa awawa ~wawawawawawa awawa awa awa awa awawa awa awawawa awawawa awa awawa awa awa awa ~wa awa awa awa awa awa awa awa awawa awa awawawawawawawa"%string.
Proof. reflexivity. Qed.

(** ** Cleaning the text *)

Lemma is_kept_letter c :
  is_kept c = true -> is_space c = false -> c ∈ ["a"; "w"; "A"; "W"; "~"]%char.
Proof.
  unfold is_kept. intros H Hs. rewrite Hs in H. cbn [orb] in H.
  by apply bool_decide_eq_true in H.
Qed.

Lemma clean_text_cons b c l :
  c ∈ ["a"; "w"; "~"]%char -> clean_text false l -> clean_text b (c :: l).
Proof.
  intros Hc [Hf Hs]. split.
  - constructor; [|done].
    rewrite !elem_of_cons in Hc |- *. rewrite elem_of_nil in Hc. tauto.
  - rewrite !elem_of_cons, elem_of_nil in Hc.
    destruct Hc as [-> | [-> | [-> | []]]]; exact Hs.
Qed.

(** What the three replacements produce is a cleaned text. *)
Lemma sanitize_clean l :
  forall b,
    clean_text b (List.map to_lower (collapse_spaces b (List.filter is_kept l))).
Proof.
  induction l as [|c l IH]; intros b; [by split; [constructor|]|].
  cbn [List.filter]. destruct (is_kept c) eqn:Hk; [|apply IH].
  cbn [collapse_spaces]. destruct (is_space c) eqn:Hs.
  - destruct b; [apply IH|]. cbn [List.map].
    destruct (IH true) as [Hf Hsp]. split.
    + constructor; [|done]. change (to_lower " ") with " "%char.
      do 3 apply list_elem_of_further. apply list_elem_of_here.
    + change (to_lower " ") with " "%char. cbn. done.
  - cbn [List.map]. apply clean_text_cons; [|apply IH].
    pose proof (is_kept_letter c Hk Hs) as Hc.
    rewrite !elem_of_cons, elem_of_nil in Hc.
    destruct Hc as [-> | [-> | [-> | [-> | [-> | []]]]]];
      vm_compute;
      repeat first [apply list_elem_of_here | apply list_elem_of_further].
Qed.

(** On a cleaned text the three replacements change nothing. *)
Lemma sanitize_fixed l :
  forall b,
    clean_text b l ->
    List.map to_lower (collapse_spaces b (List.filter is_kept l)) = l.
Proof.
  induction l as [|c l IH]; intros b [Hf Hs]; [done|].
  apply Forall_cons in Hf as [Hc Hf].
  rewrite !elem_of_cons, elem_of_nil in Hc.
  destruct Hc as [-> | [-> | [-> | [-> | []]]]].
  - change (List.map to_lower (collapse_spaces b (List.filter is_kept ("a"%char :: l))))
      with ("a"%char :: List.map to_lower (collapse_spaces false (List.filter is_kept l))).
    f_equal. apply IH. by split.
  - change (List.map to_lower (collapse_spaces b (List.filter is_kept ("w"%char :: l))))
      with ("w"%char :: List.map to_lower (collapse_spaces false (List.filter is_kept l))).
    f_equal. apply IH. by split.
  - change (List.map to_lower (collapse_spaces b (List.filter is_kept ("~"%char :: l))))
      with ("~"%char :: List.map to_lower (collapse_spaces false (List.filter is_kept l))).
    f_equal. apply IH. by split.
  - cbn in Hs. destruct Hs as [-> Hs].
    change (List.map to_lower (collapse_spaces false (List.filter is_kept (" "%char :: l))))
      with (" "%char :: List.map to_lower (collapse_spaces true (List.filter is_kept l))).
    f_equal. apply IH. by split.
Qed.

(** X24.  Cleaning the program text leaves only the characters a, w, ~ and
    space, with no two spaces in a row, whatever the text was; and
    cleaning a cleaned text changes nothing. *)
Theorem X24_cleaning_is_idempotent (input : string) :
  clean_text false (list_ascii_of_string (sanitize input))
  /\ sanitize (sanitize input) = sanitize input.
Proof.
  assert (H : clean_text false (list_ascii_of_string (sanitize input))).
  { unfold sanitize. rewrite list_ascii_of_string_of_list_ascii.
    apply sanitize_clean. }
  split; [exact H|].
  unfold sanitize at 1. rewrite (sanitize_fixed _ false H).
  apply string_of_list_ascii_of_string.
Qed.

(** ** The two streams *)

Lemma io_within_refl m : io_within 0 0 m m.
Proof.
  split; [exists []; by rewrite app_nil_r|]. split; [done|lia].
Qed.

Lemma io_within_trans i1 o1 i2 o2 m1 m2 m3 :
  io_within i1 o1 m1 m2 -> io_within i2 o2 m2 m3 ->
  io_within (i1 + i2) (o1 + o2) m1 m3.
Proof.
  intros ((ws1 & E1 & L1) & B1 & R1) ((ws2 & E2 & L2) & B2 & R2).
  split; [|split].
  - exists (ws1 ++ ws2). rewrite E2, E1, app_assoc, length_app. split; [done|lia].
  - congruence.
  - lia.
Qed.

Lemma io_within_weaken i o i' o' m m' :
  (i <= i')%nat -> (o <= o')%nat -> io_within i o m m' -> io_within i' o' m m'.
Proof.
  intros Hi Ho ((ws & E & L) & B & R). split; [|split; [done|lia]].
  exists ws. split; [done|lia].
Qed.

(** A computation that leaves both streams alone. *)
Lemma io_silent {A} (c : M A) :
  (forall m, stdin (snd (c m)) = stdin m /\ stdout (snd (c m)) = stdout m) ->
  io_bound 0 0 c.
Proof.
  intros H m. destruct (H m) as [Hi Ho]. unfold io_within. rewrite Hi, Ho.
  apply io_within_refl.
Qed.

Lemma io_bound_bind {A B} i1 o1 i2 o2 (c : M A) (k : A -> M B) :
  io_bound i1 o1 c -> (forall a, io_bound i2 o2 (k a)) ->
  io_bound (i1 + i2) (o1 + o2) (m_bind c k).
Proof.
  intros Hc Hk m. unfold m_bind. specialize (Hc m).
  destruct (c m) as [[a| |] m1]; cbn [snd] in Hc.
  - eapply io_within_trans; [exact Hc|apply Hk].
  - eapply io_within_weaken; [| |exact Hc]; lia.
  - eapply io_within_weaken; [| |exact Hc]; lia.
Qed.

Lemma io_bound_then {A B} i o (c : M A) (k : A -> M B) :
  io_bound 0 0 c -> (forall a, io_bound i o (k a)) -> io_bound i o (m_bind c k).
Proof. intros Hc Hk. exact (io_bound_bind 0 0 i o c k Hc Hk). Qed.

Lemma io_bound_first {A B} i o (c : M A) (k : A -> M B) :
  io_bound i o c -> (forall a, io_bound 0 0 (k a)) -> io_bound i o (m_bind c k).
Proof.
  intros Hc Hk m. eapply io_within_weaken; [| |exact (io_bound_bind i o 0 0 c k Hc Hk m)]; lia.
Qed.

Lemma io_bound_ret {A} (a : A) : io_bound 0 0 (m_ret a).
Proof. by apply io_silent. Qed.

Lemma io_bound_throw {A} (e : error) : io_bound 0 0 (@m_throw A e).
Proof. by apply io_silent. Qed.

Lemma io_bound_lift {A} (o : outcome A) : io_bound 0 0 (m_lift o).
Proof. by apply io_silent. Qed.

Lemma io_bound_preserves {A} (c : M A) : preserves c -> io_bound 0 0 c.
Proof. intros H. apply io_silent. intros m. by rewrite H. Qed.

Lemma io_bound_pop : io_bound 0 0 abyss_pop.
Proof. by apply io_silent. Qed.

Lemma io_bound_push l : io_bound 0 0 (abyss_push l).
Proof. by apply io_silent. Qed.

Lemma io_bound_unshift s : io_bound 0 0 (abyss_unshift s).
Proof. by apply io_silent. Qed.

Lemma io_bound_splice_insert start s : io_bound 0 0 (abyss_splice_insert start s).
Proof. by apply io_silent. Qed.

Lemma io_bound_length : io_bound 0 0 abyss_length.
Proof. by apply io_silent. Qed.

Lemma io_bound_clear : io_bound 0 0 abyss_clear.
Proof. by apply io_silent. Qed.

Lemma io_bound_stdout_write w : io_bound 0 1 (stdout_write w).
Proof.
  intros m. split; [|split; [done|cbn; lia]].
  exists [w]. split; [done|cbn; lia].
Qed.

Lemma io_bound_stdin_read : io_bound 1 0 stdin_read.
Proof.
  intros m. unfold io_within, stdin_read, ArrayReader.read.
  cbn -[Z.add Z.of_nat].
  split; [exists []; by rewrite app_nil_r|]. split; [done|lia].
Qed.

Create HintDb io.
#[local] Hint Resolve io_bound_ret io_bound_throw io_bound_lift io_bound_pop
  io_bound_push io_bound_unshift io_bound_splice_insert io_bound_length
  io_bound_clear io_bound_stdout_write io_bound_stdin_read : io.
#[local] Hint Extern 1 (io_bound 0 0 (argument _ _ _)) =>
  apply io_bound_preserves, preserves_argument : io.
#[local] Hint Extern 1 (io_bound 0 0 (need_bubbles _ _)) =>
  apply io_bound_preserves, preserves_need_bubbles : io.
#[local] Hint Extern 1 (io_bound 0 0 (abyss_peek _)) =>
  apply io_bound_preserves, preserves_peek : io.

(** Splits a sequence at the one step that reads or writes, if any. *)
Ltac io_steps :=
  repeat first
    [ apply io_bound_then; [solve [auto with io]|intros ?]
    | apply io_bound_first; [solve [auto with io]|intros ?] ];
  auto with io.

Lemma io_bound_write b : io_bound 0 1 (InOut.write b).
Proof.
  unfold InOut.write. apply io_bound_then; [auto with io|]. intros b'.
  destruct (Bubble.isDouble b'); io_steps.
Qed.

Lemma io_bound_writeRaw b : io_bound 0 1 (InOut.writeRaw b).
Proof. unfold InOut.writeRaw. io_steps. Qed.

Lemma io_bound_read : io_bound 1 0 InOut.read.
Proof.
  unfold InOut.read. apply io_bound_first; [auto with io|]. intros [z|s|l].
  - destruct (z =? 0); auto with io.
  - destruct (String.eqb s ""); [auto with io|].
    destruct (InOut.valid_line s); auto with io.
  - auto with io.
Qed.

Lemma io_bound_readRaw : io_bound 1 0 InOut.readRaw.
Proof.
  unfold InOut.readRaw. apply io_bound_first; [auto with io|]. intros [z|s|l].
  - io_steps.
  - destruct (String.eqb s ""); [auto with io|].
    destruct (js_parseInt s); io_steps.
  - auto with io.
Qed.

Lemma io_bound_submerge a : io_bound 0 0 (Abysser.submerge a).
Proof.
  unfold Abysser.submerge. apply io_bound_then; [auto with io|]. intros s.
  apply io_bound_then; [|auto with io].
  destruct (a =? 0); io_steps.
Qed.

Lemma io_bound_surround_loop n : forall b, io_bound 0 0 (Abysser.surround_loop n b).
Proof.
  induction n as [|n IH]; intros b; cbn [Abysser.surround_loop]; [auto with io|].
  apply io_bound_then; [auto with io|]. intros s.
  apply io_bound_then; [auto with io|]. intros b'. apply IH.
Qed.

Lemma io_bound_surround a : io_bound 0 0 (Abysser.surround a).
Proof.
  unfold Abysser.surround. apply io_bound_then; [apply io_bound_surround_loop|].
  auto with io.
Qed.

Lemma io_bound_push_result r : io_bound 0 0 (push_result r).
Proof. destruct r; cbn [push_result]; auto with io. Qed.

#[local] Hint Resolve io_bound_write io_bound_writeRaw io_bound_read
  io_bound_readRaw io_bound_submerge io_bound_surround io_bound_push_result : io.

(** The [switch], opcode by opcode. *)
Lemma io_bound_dispatch tokens labels cursor token code :
  io_bound (reads code) (prints code) (dispatch tokens labels cursor token code).
Proof.
  unfold dispatch. repeat case_match; subst;
    try (change (reads _) with 0%nat); try (change (prints _) with 0%nat);
    try (change (reads _) with 1%nat); try (change (prints _) with 1%nat);
    io_steps.
Qed.

Lemma interpreter_step_machine tokens labels token cursor executed m :
  snd (interpreter_step tokens labels token cursor executed m)
  = snd ((let* cr := dispatch tokens labels cursor token (OPCODES.get token) in
          push_result (snd cr);;
          m_ret (fst cr))%M m).
Proof.
  unfold interpreter_step.
  destruct (m_bind _ _ m) as [[c| |] m1]; [|done..].
  by destruct (oplimit <=? executed + 1).
Qed.

Lemma interpreter_step_io tokens labels token cursor executed m :
  io_within (reads (OPCODES.get token)) (prints (OPCODES.get token))
    m (snd (interpreter_step tokens labels token cursor executed m)).
Proof.
  rewrite interpreter_step_machine.
  apply (io_bound_first (reads (OPCODES.get token)) (prints (OPCODES.get token)));
    [apply io_bound_dispatch|].
  intros cr. io_steps.
Qed.

(** X25.  An instruction never touches what was already written and never
    changes the lines behind the reader.  Only PRN and PR1 write, one item
    at most; only RED and R3D read, one line at most.  This holds whether
    the instruction ends well or with an exception. *)
Theorem X25_only_io_instructions_use_the_streams
    tokens labels token cursor executed (m : machine) :
  let m' := snd (interpreter_step tokens labels token cursor executed m) in
  (exists ws, stdout m' = stdout m ++ ws
              /\ (List.length ws <= prints (OPCODES.get token))%nat
              /\ (OPCODES.get token <> OPCODES.PRN ->
                  OPCODES.get token <> OPCODES.PR1 -> ws = []))
  /\ ArrayReader.backing (stdin m') = ArrayReader.backing (stdin m)
  /\ ArrayReader.line (stdin m) <= ArrayReader.line (stdin m')
     <= ArrayReader.line (stdin m) + Z.of_nat (reads (OPCODES.get token))
  /\ (OPCODES.get token <> OPCODES.RED -> OPCODES.get token <> OPCODES.R3D ->
      stdin m' = stdin m).
Proof.
  intros m'.
  destruct (interpreter_step_io tokens labels token cursor executed m)
    as ((ws & E & L) & B & R).
  fold m' in E, B, R. split; [|split; [done|split; [done|]]].
  - exists ws. split; [done|]. split; [done|]. intros H1 H2.
    unfold prints in L. rewrite bool_decide_eq_false_2 in L.
    + destruct ws; [done|cbn in L; lia].
    + rewrite !elem_of_cons, elem_of_nil. tauto.
  - intros H1 H2. unfold reads in R. rewrite bool_decide_eq_false_2 in R.
    + destruct (stdin m') as [b' l'], (stdin m) as [b l]. cbn in B, R.
      f_equal; [done|lia].
    + rewrite !elem_of_cons, elem_of_nil. tauto.
Qed.

(** The same for a whole run of the loop. *)
Lemma interpreter_loop_io tokens labels fuel :
  forall cursor executed m r n m',
    interpreter_loop tokens labels fuel cursor executed m = Some (r, n, m') ->
    exists i o,
      io_within i o m m'
      /\ (Forall (fun t => prints (OPCODES.get t) = 0%nat) tokens -> o = 0%nat)
      /\ (Forall (fun t => reads (OPCODES.get t) = 0%nat) tokens -> i = 0%nat).
Proof.
  induction fuel as [|fuel IH]; intros cursor executed m r n m' E;
    cbn [interpreter_loop] in E;
    destruct (tokens !! cursor) as [token|] eqn:Ht;
    try discriminate;
    try (injection E as <- <- <-; exists 0%nat, 0%nat;
         split; [apply io_within_refl|done]).
  pose proof (interpreter_step_io tokens labels token cursor executed m) as Hs.
  apply list_elem_of_lookup_2 in Ht.
  assert (Hp : Forall (fun t => prints (OPCODES.get t) = 0%nat) tokens ->
               prints (OPCODES.get token) = 0%nat)
    by (intros HF; rewrite Forall_forall in HF; by apply HF).
  assert (Hr : Forall (fun t => reads (OPCODES.get t) = 0%nat) tokens ->
               reads (OPCODES.get token) = 0%nat)
    by (intros HF; rewrite Forall_forall in HF; by apply HF).
  destruct (interpreter_step tokens labels token cursor executed m)
    as [[[c| |] e1] m1]; cbn [snd] in Hs.
  - destruct (IH _ _ _ _ _ _ E) as (i & o & Hio & Ho & Hi).
    exists (reads (OPCODES.get token) + i)%nat, (prints (OPCODES.get token) + o)%nat.
    split; [by eapply io_within_trans|].
    split; intros HF; [rewrite Hp, Ho by done|rewrite Hr, Hi by done]; done.
  - injection E as <- <- <-. eauto.
  - injection E as <- <- <-. eauto.
Qed.

Lemma io_bound_finish : io_bound 0 0 interpreter_finish.
Proof.
  unfold interpreter_finish. apply io_bound_then; [auto with io|]. intros len.
  apply io_bound_then; [|intros ?; io_steps].
  destruct (0 <? len)%nat; io_steps.
Qed.

Lemma interpreter_io tokens m :
  exists i o,
    io_within i o m (snd (interpreter tokens m))
    /\ (Forall (fun t => prints (OPCODES.get t) = 0%nat) tokens -> o = 0%nat)
    /\ (Forall (fun t => reads (OPCODES.get t) = 0%nat) tokens -> i = 0%nat).
Proof.
  assert (H0 : exists i o, io_within i o m m
                 /\ (Forall (fun t => prints (OPCODES.get t) = 0%nat) tokens -> o = 0%nat)
                 /\ (Forall (fun t => reads (OPCODES.get t) = 0%nat) tokens -> i = 0%nat))
    by (exists 0%nat, 0%nat; split; [apply io_within_refl|done]).
  unfold interpreter.
  destruct (interpreter_run tokens m) as [[[r n] m1]|] eqn:E; [|exact H0].
  assert (H1 : exists i o, io_within i o m m1
                 /\ (Forall (fun t => prints (OPCODES.get t) = 0%nat) tokens -> o = 0%nat)
                 /\ (Forall (fun t => reads (OPCODES.get t) = 0%nat) tokens -> i = 0%nat)).
  { unfold interpreter_run in E.
    destruct (register_labels 0 tokens ∅) as [labels| |].
    - by eapply interpreter_loop_io.
    - by injection E as <- <- <-.
    - by injection E as <- <- <-. }
  destruct r as [[]| |]; [|exact H1..].
  destruct H1 as (i & o & Hio & Ho & Hi). exists i, o. split; [|done].
  eapply io_within_weaken; [| |eapply io_within_trans; [exact Hio|apply io_bound_finish]];
    lia.
Qed.

(** X26.  The interpreter only appends to the output and only moves
    forward in the input: whatever the tokens, and whether the run returns
    or fails, what was written before is still there, followed by what the
    run wrote, and the lines behind the reader are the same. *)
Theorem X26_interpreter_only_appends (tokens : list Z) (m : machine) :
  (exists ws, stdout (snd (interpreter tokens m)) = stdout m ++ ws)
  /\ ArrayReader.backing (stdin (snd (interpreter tokens m)))
     = ArrayReader.backing (stdin m)
  /\ ArrayReader.line (stdin m) <= ArrayReader.line (stdin (snd (interpreter tokens m))).
Proof.
  destruct (interpreter_io tokens m) as (i & o & ((ws & E & _) & B & R) & _).
  split; [by exists ws|]. split; [done|lia].
Qed.

(** X27.  A token sequence in which no token is a PRN or a PR1 writes
    nothing: after the interpreter ran it, returning or failing, the output
    is what it was. *)
Theorem X27_no_print_no_output (tokens : list Z) (m : machine) :
  Forall (fun t => OPCODES.get t <> OPCODES.PRN /\ OPCODES.get t <> OPCODES.PR1)
         tokens ->
  stdout (snd (interpreter tokens m)) = stdout m.
Proof.
  intros HF.
  destruct (interpreter_io tokens m) as (i & o & ((ws & E & L) & _) & Ho & _).
  assert (o = 0%nat) as ->.
  { apply Ho. eapply Forall_impl; [exact HF|]. intros t [H1 H2].
    unfold prints. rewrite bool_decide_eq_false_2; [done|].
    rewrite !elem_of_cons, elem_of_nil. tauto. }
  destruct ws; [|cbn in L; lia]. by rewrite app_nil_r in E.
Qed.

Lemma X27_no_print_no_output_witness :
  stdout (snd (interpreter [5; 5; 3; 200; 11; 13]
                 {| abyss := []; stdin := ArrayReader.new [VStr "12"];
                    stdout := [WStr "before"] |}))
  = [WStr "before"].
Proof.
  apply (X27_no_print_no_output [5; 5; 3; 200; 11; 13]).
  repeat constructor; vm_compute; discriminate.
Defined.

(** X28.  A token sequence in which no token is a RED or a R3D reads
    nothing: after the interpreter ran it, returning or failing, the
    reader stands where it stood. *)
Theorem X28_no_read_no_input (tokens : list Z) (m : machine) :
  Forall (fun t => OPCODES.get t <> OPCODES.RED /\ OPCODES.get t <> OPCODES.R3D)
         tokens ->
  stdin (snd (interpreter tokens m)) = stdin m.
Proof.
  intros HF.
  destruct (interpreter_io tokens m) as (i & o & (_ & B & R) & _ & Hi).
  assert (i = 0%nat) as ->.
  { apply Hi. eapply Forall_impl; [exact HF|]. intros t [H1 H2].
    unfold reads. rewrite bool_decide_eq_false_2; [done|].
    rewrite !elem_of_cons, elem_of_nil. tauto. }
  destruct (stdin (snd (interpreter tokens m))) as [b' l'], (stdin m) as [b l].
  cbn in B, R. f_equal; [done|lia].
Qed.

Lemma X28_no_read_no_input_witness :
  stdin (snd (interpreter [5; 8; 1; 5; 200; 2; 10]
                {| abyss := []; stdin := ArrayReader.mk [VStr "12"; VStr "aw"] 0;
                   stdout := [] |}))
  = ArrayReader.mk [VStr "12"; VStr "aw"] 0.
Proof.
  apply (X28_no_read_no_input [5; 8; 1; 5; 200; 2; 10]).
  repeat constructor; vm_compute; discriminate.
Defined.
